(** * vscode-phpunit: the test-result parsers and [Filesystem.lineAt]

    A shallow embedding of [src/parser.ts] (the record model, [JUnitParser]
    and [TeamCityParser]) and of [Filesystem.lineAt] from
    [src/server/src/Filesystem.ts], followed by the properties of these
    functions that the specification states.

    Conventions of the embedding.
    - A JavaScript string is a [string]: a sequence of code units below 256
      (the Latin-1 range); white space, line terminators, digits and letter
      case are those of ECMAScript restricted to that range.
    - A value that may be [undefined] or [null] is an [option]; [None] stands
      for either, the code never tells them apart.
    - A JavaScript exception and a rejected promise are both a [Fail] of the
      [Result] type; what fails with which error is kept.
    - Integers held in JavaScript numbers are [Z], which is exact below
      2^53; [NaN] is written out where the code can produce it.  Numbers
      with a fraction only come from [parseFloat], which is kept symbolic.
    - The collaborators that are not part of the parsers (the XML reader,
      the argument splitter, the file system, the line locator, the host
      platform) are parameters. *)

From Stdlib Require Import ZArith NArith Ascii DecimalString.
From stdpp Require Import base option list gmap strings.

Local Open Scope Z_scope.

(** ** Results of fallible computations *)

Inductive Error :=
  | TypeError                     (* property access on undefined or null *)
  | Rejected (reason : string).   (* a promise rejected by a collaborator *)

Inductive Result (A : Type) :=
  | Ok (a : A)
  | Fail (e : Error).
Arguments Ok {A} a.
Arguments Fail {A} e.

Global Instance Result_ret : MRet Result := @Ok.

Global Instance Result_bind : MBind Result := λ A B k r,
  match r with
  | Ok a => k a
  | Fail e => Fail e
  end.

(** Reading a property of [undefined] throws. *)
Definition defined {A} (o : option A) : Result A :=
  match o with
  | Some a => Ok a
  | None => Fail TypeError
  end.

Definition failed {A} (r : Result A) : Prop :=
  match r with
  | Ok _ => False
  | Fail _ => True
  end.

(** [Array.prototype.map] with a callback that may throw: the first throw
    aborts the traversal. *)
Section mapM.
Context {A B : Type} (f : A → Result B).

Fixpoint mapM (l : list A) : Result (list B) :=
  match l with
  | [] => Ok []
  | x :: l' => y ← f x; ys ← mapM l'; Ok (y :: ys)
  end.
End mapM.

(** ** JavaScript strings *)

Module Js.

Definition isLineTerminator (c : ascii) : bool :=
  match c with
  | "010" | "013" => true
  | _ => false
  end%char.

Definition isWhiteSpace (c : ascii) : bool :=
  match c with
  | "009" | "010" | "011" | "012" | "013" | " " | "160" => true
  | _ => false
  end%char.

Definition isDigit (c : ascii) : bool :=
  match c with
  | "0" | "1" | "2" | "3" | "4" | "5" | "6" | "7" | "8" | "9" => true
  | _ => false
  end%char.

(** [String.prototype.trim] *)
Fixpoint trimStart (s : string) : string :=
  match s with
  | "" => ""
  | String c r => if isWhiteSpace c then trimStart r else s
  end.

Definition trimEnd (s : string) : string :=
  String.rev (trimStart (String.rev s)).

Definition trim (s : string) : string := trimEnd (trimStart s).

(** [s.startsWith(p)], returning what follows the prefix. *)
Fixpoint stripPrefix (p s : string) : option string :=
  match p, s with
  | "", _ => Some s
  | String a p', String b s' =>
      if decide (a = b) then stripPrefix p' s' else None
  | String _ _, "" => None
  end.

Definition startsWith (p s : string) : bool :=
  bool_decide (is_Some (stripPrefix p s)).

(** [s.indexOf(needle) !== -1] *)
Fixpoint includes (needle s : string) : bool :=
  if startsWith needle s then true
  else match s with
       | "" => false
       | String _ r => includes needle r
       end.

(** [s.split(sep)] for a non-empty separator string.  [skip] counts the
    code units of a separator just recognised that are still to be
    dropped; [cur] is the current piece, reversed. *)
Fixpoint split_go (sep : string) (skip : nat) (cur s : string) : list string :=
  match s with
  | "" => [String.rev cur]
  | String c r =>
      match skip with
      | S k => split_go sep k cur r
      | O =>
          if startsWith sep s
          then String.rev cur :: split_go sep (String.length sep - 1) "" r
          else split_go sep 0 (String c cur) r
      end
  end.

Definition split (sep s : string) : list string := split_go sep 0 "" s.

(** [s.split(/\r|\n/)] and the like: every code unit satisfying [P] is a
    separator. *)
Fixpoint splitAt_go (P : ascii → bool) (cur s : string) : list string :=
  match s with
  | "" => [String.rev cur]
  | String c r =>
      if P c then String.rev cur :: splitAt_go P "" r
      else splitAt_go P (String c cur) r
  end.

Definition splitAt (P : ascii → bool) (s : string) : list string :=
  splitAt_go P "" s.

(** [s.replace(pat, rep)] with a string pattern: the first occurrence. *)
Fixpoint replace (pat rep s : string) : string :=
  match stripPrefix pat s with
  | Some rest => rep +:+ rest
  | None =>
      match s with
      | "" => ""
      | String c r => String c (replace pat rep r)
      end
  end.

(** [s.replace(/c/g, d)] for single code units. *)
Fixpoint replaceChar (c d : ascii) (s : string) : string :=
  match s with
  | "" => ""
  | String x r => String (if decide (x = c) then d else x) (replaceChar c d r)
  end.

(** [s.replace(/\r\n/g, '\n')] *)
Fixpoint replaceCrLf (s : string) : string :=
  match s with
  | "" => ""
  | String c r =>
      match c, r with
      | "013"%char, String "010"%char r' => String "010" (replaceCrLf r')
      | _, _ => String c (replaceCrLf r)
      end
  end.

(** [s.toLowerCase()] on the Latin-1 range. *)
Definition toLowerChar (c : ascii) : ascii :=
  let n := N_of_ascii c in
  if ((65 <=? n) && (n <=? 90) ||
      (192 <=? n) && (n <=? 222) && negb (n =? 215))%N
  then ascii_of_N (n + 32)
  else c.

Fixpoint toLowerCase (s : string) : string :=
  match s with
  | "" => ""
  | String c r => String (toLowerChar c) (toLowerCase r)
  end.

(** The longest prefix of decimal digits and its value. *)
Fixpoint takeDigits (s : string) : string :=
  match s with
  | "" => ""
  | String c r => if isDigit c then String c (takeDigits r) else ""
  end.

Definition digitValue (c : ascii) : Z := Z.of_N (N_of_ascii c) - 48.

Fixpoint digitsValue_go (acc : Z) (s : string) : Z :=
  match s with
  | "" => acc
  | String c r => digitsValue_go (10 * acc + digitValue c) r
  end.

Definition digitsValue (s : string) : Z := digitsValue_go 0 s.

(** A JavaScript number that holds an integer or [NaN]. *)
Inductive number :=
  | NaN
  | Int (z : Z).

(** [parseInt(s, 10)]: leading white space, an optional sign, then the
    longest run of digits; [NaN] when that run is empty. *)
Definition parseInt (s : string) : number :=
  let s := trimStart s in
  let '(sign, s) :=
    match s with
    | String "-"%char r => (-1, r)
    | String "+"%char r => (1, r)
    | _ => (1, s)
    end in
  match takeDigits s with
  | "" => NaN
  | ds => Int (sign * digitsValue ds)
  end.

(** [`${n}`] for an integer. *)
Definition toString (z : Z) : string := NilZero.string_of_int (Z.to_int z).

(** The string ['\n']. *)
Definition lf : string := String "010"%char "".

(** [parseFloat] works on IEEE doubles; its result is kept symbolic, as the
    argument it was applied to. *)
Inductive float :=
  | parseFloat (s : option string).

(** *** The two location patterns

    The pattern of [parseDetails] and [convertToDetail] is a greedy
    "any run" group, a colon, and a group of one or more digits.  From a
    given start the first group runs over code units that are not line
    terminators, as far as it can while a colon and a digit follow; the
    second group is the whole run of digits after that colon. *)
Fixpoint matchHere (s : string) : option (string * string) :=
  match s with
  | "" => None
  | String c r =>
      if isLineTerminator c then None
      else match matchHere r with
           | Some (f, d) => Some (String c f, d)
           | None =>
               if decide (c = ":"%char)
               then match takeDigits r with
                    | "" => None
                    | d => Some ("", d)
                    end
               else None
           end
  end.

(** [s.match(pattern)]: the first start position that matches. *)
Fixpoint matchFileLine (s : string) : option (string * string) :=
  match matchHere s with
  | Some m => Some m
  | None =>
      match s with
      | "" => None
      | String _ r => matchFileLine r
      end
  end.

(** The same pattern anchored at the end of the input, as [parseDetails]
    tests it: some colon is followed by digits only, and at least one, up
    to the end of the string. *)
Fixpoint allDigits (s : string) : bool :=
  match s with
  | "" => true
  | String c r => isDigit c && allDigits r
  end.

Fixpoint testFileLineEnd (s : string) : bool :=
  match s with
  | "" => false
  | String c r =>
      (bool_decide (c = ":"%char) && bool_decide (r ≠ "") && allDigits r)
      || testFileLineEnd r
  end.

End Js.

(** ** Record model *)

(** [enum Type]; [Type] is reserved, hence the underscore. *)
Inductive Type_ :=
  | PASSED | ERROR | WARNING | FAILURE | INCOMPLETE | RISKY | SKIPPED | FAILED.

Global Instance Type_eq_dec : EqDecision Type_.
Proof. solve_decision. Defined.

(** The string each member stands for at run time. *)
Definition Type_value (t : Type_) : string :=
  match t with
  | PASSED => "passed"
  | ERROR => "error"
  | WARNING => "warning"
  | FAILURE => "failure"
  | INCOMPLETE => "incomplete"
  | RISKY => "risky"
  | SKIPPED => "skipped"
  | FAILED => "failed"
  end.

(** [new Map<Type, Type>([...])], keyed by the members' run-time values. *)
Definition TypeGroup : gmap string Type_ :=
  list_to_map
    [ (Type_value PASSED, PASSED);
      (Type_value ERROR, ERROR);
      (Type_value WARNING, SKIPPED);
      (Type_value FAILURE, ERROR);
      (Type_value INCOMPLETE, INCOMPLETE);
      (Type_value RISKY, ERROR);
      (Type_value SKIPPED, SKIPPED);
      (Type_value FAILED, ERROR) ].

Definition TypeKeys : list Type_ := [PASSED; ERROR; INCOMPLETE; SKIPPED].

(** [Map.prototype.get]: a key that is not in the map gives [undefined];
    the call itself never throws. *)
Definition Map_get {V} (m : gmap string V) (key : string) : Result (option V) :=
  Ok (m !! key).

Module Detail.
Record t := mk { file : string; line : Js.number }.
End Detail.
Abbreviation Detail := Detail.t.

Module Fault.
Record t := mk {
  message : option string;
  type : option string;
  details : list Detail
}.
End Fault.
Abbreviation Fault := Fault.t.

Module TestCase.
Record t := mk {
  name : option string;
  class : option string;
  classname : option string;
  file : option string;
  line : Js.number;
  time : Js.float;
  (** [None]: the TeamCity type table has no entry for the event. *)
  type : option Type_;
  fault : option Fault
}.
End TestCase.
Abbreviation TestCase := TestCase.t.

Global Instance number_eq_dec : EqDecision Js.number.
Proof. solve_decision. Defined.
Global Instance Detail_eq_dec : EqDecision Detail.
Proof. solve_decision. Defined.

(** [x || fallback] on a string that may be undefined: the empty string is
    falsy as well. *)
Definition truthy (o : option string) : option string :=
  match o with
  | Some "" => None
  | _ => o
  end.

Definition numAdd (n : Js.number) (k : Z) : Js.number :=
  match n with
  | Js.NaN => Js.NaN
  | Js.Int z => Js.Int (z + k)
  end.

Definition numToString (n : Js.number) : string :=
  match n with
  | Js.NaN => "NaN"
  | Js.Int z => Js.toString z
  end.

(** ** The abstract [Parser] *)

Module Parser.
Section Parser.
(** [readFileAsync] of the helpers module: the content of the file, or a
    rejection. *)
Variable readFileAsync : string → Result string.
(** The subclass's [parseString]. *)
Variable parseString : string → Result (list TestCase).

Definition parseFile (fileName : string) : Result (list TestCase) :=
  content ← readFileAsync fileName; parseString content.
End Parser.
End Parser.

(** ** [JUnitParser] *)

Module JUnitParser.

(** What [xml2js] yields for an element, as far as the parser reads it:
    [attr] is the [$] member (the attributes) and [text] is the [_]
    member (the character data); either is undefined when the element has
    none.  An element that [xml2js] renders as a bare string (no attribute,
    no child) has neither member. *)
Record Element := {
  attr : option (gmap string string);
  text : option string
}.

(** A [testcase] element with its attributes ([$]) and the children the
    parser looks at, each an array of elements when present. *)
Record TestCaseNode := {
  attrs : option (gmap string string);
  error : option (list Element);
  warning : option (list Element);
  failure : option (list Element);
  skipped : option (list Element);
  incomplete : option (list Element)
}.

#[warnings="-register-all"] Inductive TestSuiteNode := {
  testsuite : option (list TestSuiteNode);
  testcase : option (list TestCaseNode)
}.

(** The parsed document: its [testsuites] member. *)
Record Document := { testsuites : option TestSuiteNode }.

(** A fault node: [Object.assign({ type }, element)], the [type] computed by
    the parser together with the [$] and [_] members of the element. *)
Record FaultNode := {
  type : Type_;
  fattr : option (gmap string string);
  ftext : option string
}.

Definition assignType (t : Type_) (e : option Element) : FaultNode :=
  {| type := t; fattr := e ≫= attr; ftext := e ≫= text |}.

Definition crlf2lf (str : option string) : Result string :=
  str ← defined str; Ok (Js.replaceCrLf str).

Definition parseErrorType (errorNode : option Element) : Result Type_ :=
  errorNode ← defined errorNode;
  attr ← defined (attr errorNode);
  type ← defined (attr !! "type");
  let errorType := Js.toLowerCase type in
  if Js.includes (Type_value SKIPPED) errorType then Ok SKIPPED
  else if Js.includes (Type_value INCOMPLETE) errorType then Ok INCOMPLETE
  else if Js.includes (Type_value FAILED) errorType then Ok FAILED
  else Ok ERROR.

Definition parseDetails (message : string) : Result (list Detail) :=
  mapM
    (λ path,
       m ← defined (Js.matchFileLine path);
       let '(file, line) := m in
       Ok (Detail.mk file (numAdd (Js.parseInt line) (-1))))
    (filter (λ line, Js.testFileLineEnd line = true)
       (Js.trim <$> Js.split Js.lf message)).

Definition parseMessage (faultNode : FaultNode) : Result string :=
  crlf2lf (ftext faultNode).

Definition getFaultNode (testCaseNode : TestCaseNode)
  : Result (option FaultNode) :=
  match error testCaseNode with
  | Some l =>
      t ← parseErrorType (l !! 0%nat); Ok (Some (assignType t (l !! 0%nat)))
  | None =>
  match warning testCaseNode with
  | Some l => Ok (Some (assignType WARNING (l !! 0%nat)))
  | None =>
  match failure testCaseNode with
  | Some l => Ok (Some (assignType FAILURE (l !! 0%nat)))
  | None =>
  if bool_decide (is_Some (skipped testCaseNode)
                  ∨ is_Some (incomplete testCaseNode))
  then Ok (Some {| type := SKIPPED;
                   fattr := Some {[ "type" := Type_value SKIPPED ]};
                   ftext := Some "" |})
  else Ok None
  end end end.

Definition currentFile (details : list Detail) (testCase : TestCase)
  : option string * Js.number :=
  let details :=
    filter (λ detail, TestCase.file testCase = Some (Detail.file detail))
      details in
  match last details with
  | Some detail => (Some (Detail.file detail), Detail.line detail)
  | None => (TestCase.file testCase, TestCase.line testCase)
  end.

Definition parseTestCase (testCaseNode : TestCaseNode) : Result TestCase :=
  testCaseNodeAttr ← defined (attrs testCaseNode);
  let testCase :=
    {| TestCase.name := truthy (testCaseNodeAttr !! "name");
       TestCase.class := testCaseNodeAttr !! "class";
       TestCase.classname := truthy (testCaseNodeAttr !! "classname");
       TestCase.file := testCaseNodeAttr !! "file";
       TestCase.line :=
         numAdd
           (Js.parseInt (default "1" (truthy (testCaseNodeAttr !! "line"))))
           (-1);
       TestCase.time :=
         Js.parseFloat
           (Some (default "0" (truthy (testCaseNodeAttr !! "time"))));
       TestCase.type := Some PASSED;
       TestCase.fault := None |} in
  faultNode ← getFaultNode testCaseNode;
  match faultNode with
  | None => Ok testCase
  | Some faultNode =>
      message ← parseMessage faultNode;
      details ← parseDetails message;
      let message :=
        foldl
          (λ message detail,
             Js.trim
               (Js.replace
                  (Detail.file detail +:+ ":"
                     +:+ numToString (numAdd (Detail.line detail) 1))
                  "" message))
          message details in
      let '(file, line) := currentFile details testCase in
      faultNodeAttr ← defined (fattr faultNode);
      Ok {| TestCase.name := TestCase.name testCase;
            TestCase.class := TestCase.class testCase;
            TestCase.classname := TestCase.classname testCase;
            TestCase.file := file;
            TestCase.line := line;
            TestCase.time := TestCase.time testCase;
            TestCase.type := Some (type faultNode);
            TestCase.fault :=
              Some {| Fault.type :=
                        Some (default "" (truthy (faultNodeAttr !! "type")));
                      Fault.message := Some (Js.trim message);
                      Fault.details :=
                        filter
                          (λ detail,
                             Some (Detail.file detail)
                             ≠ TestCase.file testCase)
                          details |} |}
  end.

Fixpoint parseTestSuite (testSuitNode : TestSuiteNode)
  : Result (list TestCase) :=
  match testsuite testSuitNode with
  | Some l => ls ← mapM parseTestSuite l; Ok (concat ls)
  | None =>
      match testcase testSuitNode with
      | Some l => mapM parseTestCase l
      | None => Ok []
      end
  end.

Section JUnitParser.
Variable readFileAsync : string → Result string.
(** The [xml2js] reader: the document, or a rejection for text that is
    not well-formed XML. *)
Variable xml2json : string → Result Document.

Definition parseString (content : string) : Result (list TestCase) :=
  json ← xml2json content;
  testSuitNode ← defined (testsuites json);
  parseTestSuite testSuitNode.

Definition parse (fileName : string) : Result (list TestCase) :=
  Parser.parseFile readFileAsync parseString fileName.
End JUnitParser.

End JUnitParser.

(** ** [TeamCityParser] *)

Module TeamCityParser.

(** A service message after [convertToArguments]: an object whose members
    are strings or undefined. *)
Abbreviation Event := (gmap string (option string)).

(** [item.key] *)
Definition get (key : string) (item : Event) : option string :=
  item !! key ≫= id.

Definition typeMap : gmap string Type_ :=
  list_to_map
    [ ("testPassed", PASSED); ("testFailed", FAILURE); ("testIgnored", SKIPPED) ].

(** [this.typeMap[item.type]].  A name that is not a key of the table gives
    no [Type]: undefined, or for a name inherited from [Object.prototype] a
    value that is no member of [Type] either. *)
Definition typeOf (item : Event) : option Type_ :=
  type ← get "type" item; typeMap !! type.

(** Modelled from the spec: [tap] of the helpers module is not among the
    sources.  The specification describes its one effect that matters here
    (the file part of the location hint is the rewritten one): [tap] hands
    the value to the callback, which updates it in place, and returns that
    value.  The in-place update is the function [callback]. *)
Definition tap {A} (value : A) (callback : A → A) : A := callback value.

(** [s.replace(/^##teamcity\[|\]$/g, '')] *)
Definition stripMarker (line : string) : string :=
  let line := default line (Js.stripPrefix "##teamcity[" line) in
  match String.rev line with
  | String "]"%char r => String.rev r
  | _ => line
  end.

(** [s.replace(/^php_qn:\/\//, '')] *)
Definition stripScheme (hint : string) : string :=
  default hint (Js.stripPrefix "php_qn://" hint).

(** [groupByType]: one step of the reduction.  [results[counter]] is created
    when it is missing and the item is pushed onto it.  The counter never
    passes the length of [results] (lemma [groupByType_counter]), so creating
    the entry appends it and leaves no hole. *)
Definition groupByType_step (acc : list (list Event) * nat) (item : Event)
  : list (list Event) * nat :=
  let '(results, counter) := acc in
  let results :=
    match results !! counter with
    | Some _ => results
    | None => results ++ [[]]
    end in
  let results := alter (λ group, group ++ [item]) counter results in
  (results,
   if decide (get "type" item = Some "testFinished") then S counter
   else counter).

Definition groupByType (items : list Event) : list (list Event) :=
  (foldl groupByType_step ([], 0%nat) items).1.

(** [content.split('|n').map(line => line.trim()).filter(line => !!line)]:
    the non-empty trimmed segments that [convertToDetail] maps over. *)
Definition segments (content : string) : list string :=
  filter (λ line, line ≠ "") (Js.trim <$> Js.split "|n" content).

(** [Promise.all]: all results in order, or a rejection (the first one in
    list order; which one JavaScript reports depends on timing). *)
Definition Promise_all {A} (promises : list (Result A)) : Result (list A) :=
  mapM id promises.

Section TeamCityParser.
(** [os === 'windows'] *)
Variable windows : bool.
(** [LineData.lineNumber] of the helpers module: the index of the first line
    of the file that contains the text, or a rejection. *)
Variable lineNumber : option string → string → Result Js.number.
(** [minimistString(line)._]: the positional arguments of the line. *)
Variable minimistString : string → list string.

Definition renamePath (path : string) : string :=
  if windows then Js.replaceChar "/" "\" path else path.

Definition convertToArguments (content : string) : list Event :=
  filter
    (λ item : Event,
       get "type" item
       ∉ [Some "testCount"; Some "testSuiteStarted"; Some "testSuiteFinished"])
    ((λ line,
        let line :=
          Js.replaceChar "\" "/" (stripMarker (Js.trim line)) in
        let argv := minimistString line in
        let type := head argv in
        foldl
          (λ (options : Event) arg,
             let parts := Js.split "=" arg in
             <[default "undefined" (parts !! 0%nat) := parts !! 1%nat]> options)
          {[ "type" := type ]}
          (tail argv))
     <$> filter (λ line, Js.startsWith "##teamcity" line = true)
           (Js.splitAt Js.isLineTerminator content)).

(** The callback of the last [map] in [convertToDetail]: destructuring the
    result of [match] throws when the pattern does not match. *)
Definition toDetail (path : string) : Result Detail :=
  m ← defined (Js.matchFileLine path);
  let '(file, line) := m in
  Ok (Detail.mk (renamePath file) (Js.parseInt line)).

Definition convertToDetail (content : option string) : Result (list Detail) :=
  content ← defined content;
  mapM toDetail (segments content).

(** The location hint of a start event, split into its parts, the first one
    path-rewritten. *)
Definition locationHintData (locationHint : string) : list string :=
  tap
    (Js.split "::"
       (Js.replace "::/" "::" (stripScheme (Js.trim locationHint))))
    (λ data,
       match data with
       | data0 :: rest => renamePath data0 :: rest
       | [] => []
       end).

(** The callback of [groups.map] in [convertToTestCase].  The outer result
    is what the callback does synchronously (it may throw), the inner one is
    the promise it returns. *)
Definition convertGroup (group : list Event) : Result (Result TestCase) :=
  let group :=
    match group with
    | [a; b] => [a; {[ "type" := Some "testPassed" ]}; b]
    | _ => group
    end in
  start ← defined (group !! 0%nat);
  locationHint ← defined (get "locationHint" start);
  let data := locationHintData locationHint in
  let file := data !! 0%nat in
  let className := data !! 1%nat in
  let name := data !! 2%nat in
  error ← defined (group !! 1%nat);
  let type := typeOf error in
  finish ← defined (group !! 2%nat);
  let testCase :=
    {| TestCase.name := name;
       TestCase.class := className;
       TestCase.classname := None;
       TestCase.file := file;
       TestCase.line := Js.Int 0;
       TestCase.time := Js.parseFloat (get "duration" finish);
       TestCase.type := type;
       TestCase.fault := None |} in
  if decide (type = Some PASSED) then
    Ok (line ← lineNumber file ("function " +:+ default "undefined" name);
        Ok {| TestCase.name := name;
              TestCase.class := className;
              TestCase.classname := None;
              TestCase.file := file;
              TestCase.line := line;
              TestCase.time := TestCase.time testCase;
              TestCase.type := type;
              TestCase.fault := None |})
  else
    details ← convertToDetail (get "details" error);
    let '(file', line') :=
      match details !! 0%nat with
      | Some detail => (Some (Detail.file detail), Detail.line detail)
      | None => (file, Js.Int 0)
      end in
    Ok (Ok {| TestCase.name := name;
              TestCase.class := className;
              TestCase.classname := None;
              TestCase.file := file';
              TestCase.line := line';
              TestCase.time := TestCase.time testCase;
              TestCase.type := type;
              TestCase.fault :=
                Some {| Fault.message := get "message" error;
                        Fault.type := None;
                        Fault.details :=
                          filter
                            (λ detail, Some (Detail.file detail) ≠ file)
                            details |} |}).

Definition convertToTestCase (groups : list (list Event))
  : Result (list TestCase) :=
  promises ← mapM convertGroup groups; Promise_all promises.

Definition parseString (content : string) : Result (list TestCase) :=
  convertToTestCase (groupByType (convertToArguments content)).

Definition parse (content : string) : Result (list TestCase) :=
  parseString content.
End TeamCityParser.

End TeamCityParser.

(** ** [ParserFactory] *)

Module ParserFactory.

(** What [create] does: it returns an instance of one of the two parser
    classes, or throws [Error('wrong parser')].  The table is an object
    literal, so the two names it inherits from [Object.prototype] that are
    their own lower-casing are found as well: [constructor] gives [Object],
    whose instance is a plain object, and [__proto__] gives the prototype
    itself, which is no constructor. *)
Inductive Outcome :=
  | Created (class : string)
  | PlainObject
  | WrongParser
  | NotAConstructor.

(** [private map = { teamcity: TeamCityParser, junit: JUnitParser }] *)
Definition map : gmap string string :=
  list_to_map [("teamcity", "TeamCityParser"); ("junit", "JUnitParser")].

Definition create (name : string) : Outcome :=
  let name := Js.toLowerCase name in
  match map !! name with
  | Some class => Created class
  | None =>
      if decide (name = "constructor") then PlainObject
      else if decide (name = "__proto__") then NotAConstructor
      else WrongParser
  end.

End ParserFactory.

(** ** [Env] *)

Module Env.

(** The arguments of the constructor; [delimiter] and [extensions] are set
    from them once and never assigned again. *)
Record t := mk {
  _paths : string + list string;
  platform : string
}.

(** The alternative [mswin(?!ce)] on a lower-cased text: some occurrence of
    [mswin] is not followed by [ce]. *)
Fixpoint mswinNotCe (s : string) : bool :=
  match Js.stripPrefix "mswin" s with
  | Some r => negb (Js.startsWith "ce" r)
  | None => false
  end
  || match s with
     | "" => false
     | String _ r => mswinNotCe r
     end.

(** [/win32|mswin(?!ce)|mingw|bccwin|cygwin/i.test(platform)].  The pattern
    is made of ASCII letters and digits, so ignoring case is comparing with
    the lower-cased text. *)
Definition isWindows (platform : string) : bool :=
  let p := Js.toLowerCase platform in
  Js.includes "win32" p || mswinNotCe p || Js.includes "mingw" p
  || Js.includes "bccwin" p || Js.includes "cygwin" p.

Definition isWin (env : t) : bool := isWindows (platform env).

Definition delimiter (env : t) : ascii :=
  if isWin env then ";"%char else ":"%char.

Definition extensions (env : t) : list string :=
  if isWin env then [".bat"; ".exe"; ".cmd"; ""] else [""].

(** [path.replace(new RegExp(`${delimiter}$`, 'g'), '')]: a delimiter at the
    end of the text is dropped. *)
Definition dropFinal (c : ascii) (path : string) : string :=
  match String.rev path with
  | String c' r => if decide (c' = c) then String.rev r else path
  | "" => path
  end.

Definition splitPaths (env : t) (paths : string + list string) : list string :=
  match paths with
  | inr paths => paths
  | inl paths =>
      (λ path, Js.trim (dropFinal (delimiter env) path))
      <$> Js.splitAt (λ c, bool_decide (c = delimiter env)) paths
  end.

Definition paths (env : t) : list string := splitPaths env (_paths env).

End Env.

(** ** [Filesystem.lineAt] *)

Module Filesystem.

(** A promise settles once; later calls of [resolve] or [reject] are
    ignored. *)
Inductive Promise (A : Type) :=
  | Pending
  | Resolved (a : A)
  | RejectedWith (reason : string).
Arguments Pending {A}.
Arguments Resolved {A} a.
Arguments RejectedWith {A} reason.

Definition resolve {A} (a : A) (p : Promise A) : Promise A :=
  match p with
  | Pending => Resolved a
  | _ => p
  end.

Definition reject {A} (reason : string) (p : Promise A) : Promise A :=
  match p with
  | Pending => RejectedWith reason
  | _ => p
  end.

(** The variables of [lineAt]'s closure, the promise it returns, and
    whether the [readline] interface has been closed. *)
Record State := {
  current : Z;
  found : bool;
  closed : bool;
  promise : Promise string
}.

Definition init : State :=
  {| current := 0; found := false; closed := false; promise := Pending |}.

(** The ['close'] listener. *)
Definition onClose (st : State) : State :=
  if found st then st
  else {| current := current st; found := found st; closed := closed st;
          promise := reject "" (promise st) |}.

(** [rl.close()]: the first call emits ['close'], later calls do nothing. *)
Definition close (st : State) : State :=
  if closed st then st
  else onClose {| current := current st; found := found st; closed := true;
                  promise := promise st |}.

(** The ['line'] listener. *)
Definition onLine (lineNumber : Z) (line : string) (st : State) : State :=
  let st :=
    if decide (lineNumber = current st) then
      let st := {| current := current st; found := true;
                   closed := closed st; promise := promise st |} in
      let st := close st in
      {| current := current st; found := found st; closed := closed st;
         promise := resolve line (promise st) |}
    else st in
  {| current := current st + 1; found := found st; closed := closed st;
     promise := promise st |}.

(** The interface emits the lines of the stream in order and closes at the
    end of input.  Once closed it may still emit lines it had already read:
    at most [buffered] of them. *)
Fixpoint emit (lineNumber : Z) (buffered : nat) (lines : list string)
    (st : State) : State :=
  match lines with
  | [] => close st
  | line :: lines' =>
      if closed st then
        match buffered with
        | O => st
        | S buffered' =>
            emit lineNumber buffered' lines' (onLine lineNumber line st)
        end
      else emit lineNumber buffered lines' (onLine lineNumber line st)
  end.

(** [lineAt(uri, lineNumber)], for a file whose stream the interface reads
    as [lines]. *)
Definition lineAt (buffered : nat) (lines : list string) (lineNumber : Z)
  : Promise string :=
  promise (emit lineNumber buffered lines init).

(** *** Ranges *)

Module Position.
Record t := create { line : Z; character : nat }.
End Position.

Module Range.
Record t := create { start : Position.t; end_ : Position.t }.
End Range.

(** [line.search(/\S|$/)]: the index of the first code unit that is not
    white space, the length when there is none. *)
Fixpoint searchNonSpace (line : string) : nat :=
  match line with
  | "" => 0
  | String c r => if Js.isWhiteSpace c then S (searchNonSpace r) else 0
  end.

(** [lineRange]: it awaits [lineAt], so a rejection of [lineAt] is its
    own. *)
Definition lineRange (buffered : nat) (lines : list string) (lineNumber : Z)
  : Promise Range.t :=
  match lineAt buffered lines lineNumber with
  | Resolved line =>
      Resolved
        (Range.create
           (Position.create lineNumber (searchNonSpace line))
           (Position.create lineNumber (String.length (Js.trimEnd line))))
  | RejectedWith reason => RejectedWith reason
  | Pending => Pending
  end.

(** *** Paths *)

Definition isWordChar (c : ascii) : bool :=
  let n := N_of_ascii c in
  ((48 <=? n) && (n <=? 57) || (65 <=? n) && (n <=? 90)
   || (97 <=? n) && (n <=? 122) || (n =? 95))%N.

(** The text that [asUri] hands to [URI.parse] on Windows:
    [uri.replace(/\\/g, '/')], then a leading word character and colon [c:]
    replaced by a slash, the lower-cased character and [%3A]. *)
Definition windowsUri (uri : string) : string :=
  let uri := Js.replaceChar "\" "/" uri in
  match uri with
  | String c (String ":"%char r) =>
      if isWordChar c
      then String "/" (String (Js.toLowerChar c) ("%3A" +:+ r))
      else uri
  | _ => uri
  end.

Section Filesystem.
(** The constructor's argument. *)
Variable env : Env.t.
(** [join] of the [path] module. *)
Variable join : string → string → string.
(** [this.exists(file)], which resolves with [true] or [false] and never
    rejects. *)
Variable exists_ : string → bool.
(** [this.dirname(uri)]. *)
Variable dirname : string → string.
(** URIs, [URI.parse] and [uri.with({ scheme: 'file' })]. *)
Variable URI : Type.
Variable URI_parse : string → URI.
Variable withFileScheme : URI → URI.

Definition asUri (uri : URI + string) : URI :=
  match uri with
  | inl uri => uri
  | inr uri =>
      withFileScheme
        (URI_parse (if Env.isWin env then windowsUri uri else uri))
  end.

(** The candidates that the generator [searchFile] yields, in order. *)
Definition searchFile (search : string + list string) (paths : list string)
  : list string :=
  let search :=
    match search with
    | inr search => search
    | inl search => [search]
    end in
  path ← paths;
  extension ← Env.extensions env;
  value ← search;
  [join path (value +:+ extension)].

(** The loop of [find]: the first candidate that exists. *)
Fixpoint firstExisting (files : list string) : option string :=
  match files with
  | [] => None
  | file :: files' => if exists_ file then Some file else firstExisting files'
  end.

Definition find (search : string + list string) (paths : list string)
  : option string :=
  firstExisting (searchFile search (paths ++ Env.paths env)).

Definition which (search : string + list string) (cwd : string)
  : option string :=
  find search [cwd].

(** The loop of [findup]: the parents pushed after [cwd], up to the first
    path that is its own [dirname]; [None] when [fuel] iterations do not
    reach one. *)
Fixpoint parents (fuel : nat) (current : string) : option (list string) :=
  match fuel with
  | O => None
  | S fuel' =>
      let parent := dirname current in
      if decide (current = parent) then Some []
      else (parent ::.) <$> parents fuel' parent
  end.

Definition findup (fuel : nat) (search : string + list string) (cwd : string)
  : option (option string) :=
  paths ← parents fuel cwd;
  Some (find search ([cwd] ++ cwd :: paths)).
End Filesystem.

End Filesystem.

(** * Notions used to state the properties *)

(** A needle occurs in [s] up to letter case. *)
Definition containsIgnoringCase (needle s : string) : Prop :=
  ∃ a m b, s = a +:+ m +:+ b ∧ Js.toLowerCase m = needle.


(** The fixed table of the data model: the display severity of each
    outcome kind. *)
Definition severity (t : Type_) : Type_ :=
  match t with
  | PASSED => PASSED
  | ERROR => ERROR
  | WARNING => SKIPPED
  | FAILURE => ERROR
  | INCOMPLETE => INCOMPLETE
  | RISKY => ERROR
  | SKIPPED => SKIPPED
  | FAILED => ERROR
  end.


(** Exactly one of: no fault and type [PASSED]; a fault and another
    type. *)
Definition faultIffNotPassed (tc : TestCase) : Prop :=
  let passed := TestCase.fault tc = None ∧ TestCase.type tc = Some PASSED in
  let faulty :=
    is_Some (TestCase.fault tc) ∧ TestCase.type tc ≠ Some PASSED in
  (passed ∧ ¬ faulty) ∨ (¬ passed ∧ faulty).

(** The grouping in the words of the specification: walk the events in
    order, accumulating them into the current group, and close the current
    group right after a [testFinished] event. *)
Definition isFinished (item : TeamCityParser.Event) : Prop :=
  TeamCityParser.get "type" item = Some "testFinished".

Fixpoint perTestWindows (current items : list TeamCityParser.Event)
  : list (list TeamCityParser.Event) :=
  match items with
  | [] => match current with [] => [] | _ => [current] end
  | item :: items' =>
      if decide (isFinished item)
      then (current ++ [item]) :: perTestWindows [] items'
      else perTestWindows (current ++ [item]) items'
  end.

(** No code unit of [s] satisfies [P]. *)
Fixpoint noneIs (P : ascii → bool) (s : string) : bool :=
  match s with
  | "" => true
  | String c r => negb (P c) && noneIs P r
  end.

(** The number of code units of [s] that satisfy [P]. *)
Fixpoint countIs (P : ascii → bool) (s : string) : nat :=
  match s with
  | "" => 0
  | String c r => (if P c then 1 else 0) + countIs P r
  end.

(** Every code unit of [s] is white space. *)
Fixpoint allWhiteSpace (s : string) : bool :=
  match s with
  | "" => true
  | String c r => Js.isWhiteSpace c && allWhiteSpace r
  end.

(** The pieces joined with the separator [c] between them. *)
Fixpoint joinWith (c : ascii) (pieces : list string) : string :=
  match pieces with
  | [] => ""
  | [piece] => piece
  | piece :: pieces' => piece +:+ String c (joinWith c pieces')
  end.

(** The [testcase] elements that [parseTestSuite] reaches, in document
    order: those of the suites that have no nested suite. *)
Fixpoint leaves (testSuitNode : JUnitParser.TestSuiteNode)
  : list JUnitParser.TestCaseNode :=
  match JUnitParser.testsuite testSuitNode with
  | Some l => concat (leaves <$> l)
  | None => default [] (JUnitParser.testcase testSuitNode)
  end.

(** Concrete hosts and inputs, for the examples. *)
Module Examples.

Definition emptyDocument : JUnitParser.Document :=
  {| JUnitParser.testsuites :=
       Some {| JUnitParser.testsuite := None; JUnitParser.testcase := None |} |}.

(** An XML reader that knows one document. *)
Definition xmlReader (content : string) : Result JUnitParser.Document :=
  if decide (content = "<testsuites/>") then Ok emptyDocument
  else Fail (Rejected "Non-whitespace before first tag.").

(** A file system with one file. *)
Definition oneFile (fileName : string) : Result string :=
  if decide (fileName = "junit.xml") then Ok "<testsuites/>"
  else Fail (Rejected "ENOENT").

(** A [testcase] whose only child is an [error] of a skipped-test type. *)
Definition skippedByError : JUnitParser.TestCaseNode :=
  {| JUnitParser.attrs :=
       Some (list_to_map
               [("name", "testSkipped"); ("class", "PHPUnitTest");
                ("file", "C:/tests/PHPUnitTest.php"); ("line", "28")]);
     JUnitParser.error :=
       Some [ {| JUnitParser.attr :=
                   Some {[ "type" := "PHPUnit_Framework_SkippedTestError" ]};
                 JUnitParser.text := Some "Skipped Test" |} ];
     JUnitParser.warning := None;
     JUnitParser.failure := None;
     JUnitParser.skipped := None;
     JUnitParser.incomplete := None |}.

(** A failed [testcase] whose message ends in two locations, the second one
    in the test's own file. *)
Definition failedInOwnFile : JUnitParser.TestCaseNode :=
  {| JUnitParser.attrs :=
       Some (list_to_map
               [("name", "testFailed"); ("class", "PHPUnitTest");
                ("file", "C:/tests/PHPUnitTest.php"); ("line", "18");
                ("time", "0.001918")]);
     JUnitParser.error := None;
     JUnitParser.warning := None;
     JUnitParser.failure :=
       Some [ {| JUnitParser.attr :=
                   Some {[ "type" :=
                             "PHPUnit_Framework_ExpectationFailedException" ]};
                 JUnitParser.text :=
                   Some ("PHPUnitTest::testFailed" +:+ Js.lf
                         +:+ "Failed asserting that false is true." +:+ Js.lf
                         +:+ Js.lf
                         +:+ "C:/vendor/Helper.php:7" +:+ Js.lf
                         +:+ "C:/tests/PHPUnitTest.php:20" +:+ Js.lf) |} ];
     JUnitParser.skipped := None;
     JUnitParser.incomplete := None |}.

(** A report with one suite and three test cases. *)
Definition passedCase : JUnitParser.TestCaseNode :=
  {| JUnitParser.attrs :=
       Some (list_to_map
               [("name", "testPassed"); ("class", "PHPUnitTest");
                ("file", "C:/tests/PHPUnitTest.php"); ("line", "13");
                ("time", "0.006241")]);
     JUnitParser.error := None;
     JUnitParser.warning := None;
     JUnitParser.failure := None;
     JUnitParser.skipped := None;
     JUnitParser.incomplete := None |}.

Definition report : JUnitParser.Document :=
  {| JUnitParser.testsuites :=
       Some {| JUnitParser.testsuite :=
                 Some [ {| JUnitParser.testsuite := None;
                           JUnitParser.testcase :=
                             Some [passedCase; failedInOwnFile;
                                   skippedByError] |} ];
               JUnitParser.testcase := None |} |}.

(** A file system and an XML reader for [report]. *)
Definition reportFile (fileName : string) : Result string :=
  if decide (fileName = "junit.xml") then Ok "<testsuites>...</testsuites>"
  else Fail (Rejected "ENOENT").

Definition reportReader (content : string) : Result JUnitParser.Document :=
  if decide (content = "<testsuites>...</testsuites>") then Ok report
  else Fail (Rejected "Non-whitespace before first tag.").

(** A line locator that knows one file. *)
Definition lineOf (file : option string) (text : string) : Result Js.number :=
  if decide (file = Some "C:/tests/T.php") then Ok (Js.Int 12)
  else Fail (Rejected "ENOENT").

(** An argument splitter for lines whose values hold no blank: it splits at
    blanks and drops the single quotes. *)
Fixpoint unquote (s : string) : string :=
  match s with
  | "" => ""
  | String c r => if decide (c = "'"%char) then unquote r
                  else String c (unquote r)
  end.

Definition argv (line : string) : list string :=
  unquote <$> Js.splitAt (λ c, bool_decide (c = " "%char)) line.

(** The output of a run with one passed and one failed test. *)
Definition teamcityOutput : string :=
  "PHPUnit 6.4.1 by Sebastian Bergmann and contributors." +:+ Js.lf
  +:+ "##teamcity[testCount count='2' flowId='1']" +:+ Js.lf
  +:+ "##teamcity[testSuiteStarted name='T' flowId='1']" +:+ Js.lf
  +:+ "##teamcity[testStarted name='testPassed' "
  +:+ "locationHint='php_qn://C:\tests\T.php::\T::testPassed' flowId='1']"
  +:+ Js.lf
  +:+ "##teamcity[testFinished name='testPassed' duration='10' flowId='1']"
  +:+ Js.lf
  +:+ "##teamcity[testStarted name='testFailed' "
  +:+ "locationHint='php_qn://C:\tests\T.php::\T::testFailed' flowId='1']"
  +:+ Js.lf
  +:+ "##teamcity[testFailed name='testFailed' message='Failed' "
  +:+ "details='C:\tests\T.php:20|n' flowId='1']" +:+ Js.lf
  +:+ "##teamcity[testFinished name='testFailed' duration='0' flowId='1']"
  +:+ Js.lf
  +:+ "##teamcity[testSuiteFinished name='T' flowId='1']" +:+ Js.lf.

(** Events of one test. *)
Definition event (members : list (string * string)) : TeamCityParser.Event :=
  list_to_map (prod_map id Some <$> members).

Definition started : TeamCityParser.Event :=
  event [("type", "testStarted"); ("name", "testA");
         ("locationHint", "php_qn://t.php::/T::testA")].


Definition failedWithDetails : TeamCityParser.Event :=
  event [("type", "testFailed"); ("name", "testA");
         ("message", "Failed asserting that false is true.");
         ("details", "a.php:5|nb.php:9")].

Definition failedWithBadDetails : TeamCityParser.Event :=
  event [("type", "testFailed"); ("name", "testA");
         ("message", "Failed asserting that false is true.");
         ("details", "a.php:5|n#1 {main}")].

Definition finished : TeamCityParser.Event :=
  event [("type", "testFinished"); ("name", "testA"); ("duration", "0")].

(** A start event whose location hint has one part only. *)
Definition startedBare : TeamCityParser.Event :=
  event [("type", "testStarted"); ("name", "testA");
         ("locationHint", "php_qn://t.php")].

(** A line locator that finds every text at line 7. *)
Definition line7 (file : option string) (text : string) : Result Js.number :=
  Ok (Js.Int 7).

(** The output of a run whose start event has a one-part location hint. *)
Definition bareOutput : string :=
  "##teamcity[testStarted name='testA' locationHint='php_qn://t.php']"
  +:+ Js.lf
  +:+ "##teamcity[testFailed name='testA' message='Failed' details='a.php:5']"
  +:+ Js.lf
  +:+ "##teamcity[testFinished name='testA' duration='0']" +:+ Js.lf.

(** A suite with two nested suites and a [testcase] child of its own, which
    is not reached. *)
Definition nestedSuites : JUnitParser.TestSuiteNode :=
  {| JUnitParser.testsuite :=
       Some [ {| JUnitParser.testsuite := None;
                 JUnitParser.testcase := Some [passedCase] |};
              {| JUnitParser.testsuite := None;
                 JUnitParser.testcase :=
                   Some [failedInOwnFile; skippedByError] |} ];
     JUnitParser.testcase := Some [passedCase] |}.

(** Stand-ins for the collaborators of [Filesystem]: a [join] that puts a
    slash between its arguments, a [dirname] that drops the last segment of
    an absolute path, and a disk that holds two files. *)
Definition joinPath (path name : string) : string := path +:+ "/" +:+ name.

Fixpoint afterSlash (s : string) : string :=
  match s with
  | "" => ""
  | String c r => if decide (c = "/"%char) then r else afterSlash r
  end.

Definition parentOf (path : string) : string :=
  match String.rev (afterSlash (String.rev path)) with
  | "" => "/"
  | parent => parent
  end.

Definition onDisk (file : string) : bool :=
  bool_decide (file ∈ ["/home/me/vendor/bin/phpunit"; "/usr/bin/phpunit"]).

Definition linux : Env.t := Env.mk (inl "/usr/local/bin:/usr/bin") "linux".

End Examples.

(** * Properties *)

(** ** Results *)

Lemma bind_Ok {A B} (r : Result A) (k : A → Result B) (b : B) :
  r ≫= k = Ok b ↔ ∃ a, r = Ok a ∧ k a = Ok b.
Proof.
  destruct r as [a|e]; simpl; split.
  - eauto.
  - by intros (a' & [= <-] & ?).
  - discriminate.
  - by intros (a' & [=] & ?).
Qed.

Lemma bind_failed {A B} (r : Result A) (k : A → Result B) :
  failed (r ≫= k) ↔ failed r ∨ ∃ a, r = Ok a ∧ failed (k a).
Proof.
  destruct r as [a|e]; simpl; split; try tauto.
  - eauto.
  - by intros [[]|(a' & [= <-] & ?)].
Qed.

Lemma not_failed_Ok {A} (r : Result A) : ¬ failed r ↔ ∃ a, r = Ok a.
Proof.
  destruct r as [a|e]; simpl; split; try tauto.
  - eauto.
  - by intros [? [=]].
Qed.

Lemma mapM_Ok {A B} (f : A → Result B) (l : list A) (ys : list B) :
  mapM f l = Ok ys ↔ Forall2 (λ x y, f x = Ok y) l ys.
Proof.
  revert ys. induction l as [|x l IH]; intros ys; simpl.
  - split; [intros [= <-]; constructor | by inversion 1].
  - rewrite bind_Ok. split.
    + intros (y & Hy & Hrest). apply bind_Ok in Hrest as (ys' & Hys' & [= <-]).
      constructor; [done | by apply IH].
    + inversion 1 as [|? y ? ys' Hy Hys']; subst. exists y. split; [done|].
      apply bind_Ok. exists ys'. by rewrite IH.
Qed.

Lemma mapM_failed {A B} (f : A → Result B) (l : list A) (x : A) :
  x ∈ l → failed (f x) → failed (mapM f l).
Proof.
  intros Hx Hf. induction l as [|x' l IH]; [by inversion Hx|].
  simpl. apply bind_failed. destruct (f x') as [y|e] eqn:Hx'; [right | by left].
  exists y. split; [done|]. apply bind_failed. left.
  apply IH. inversion Hx; subst; [|done]. by rewrite Hx' in Hf.
Qed.

Lemma mapM_total {A B} (f : A → Result B) (l : list A) :
  Forall (λ x, ¬ failed (f x)) l → ∃ ys, mapM f l = Ok ys.
Proof.
  induction 1 as [|x l Hx _ [ys IH]]; [by exists []|].
  apply not_failed_Ok in Hx as [y Hy]. exists (y :: ys).
  simpl. by rewrite Hy, IH.
Qed.

(** ** Strings *)

Lemma app_String (c : ascii) (s t : string) :
  String c s +:+ t = String c (s +:+ t).
Proof. reflexivity. Qed.

Lemma app_empty_l (t : string) : "" +:+ t = t.
Proof. reflexivity. Qed.

Lemma app_empty_r (s : string) : s +:+ "" = s.
Proof. induction s as [|c s IH]; [done|]. by rewrite app_String, IH. Qed.

Lemma app_assoc_s (s t u : string) : (s +:+ t) +:+ u = s +:+ t +:+ u.
Proof. induction s as [|c s IH]; [done|]. by rewrite !app_String, IH. Qed.

Lemma stripPrefix_Some (p s r : string) :
  Js.stripPrefix p s = Some r ↔ s = p +:+ r.
Proof.
  revert s. induction p as [|a p IH]; intros s; simpl.
  - rewrite app_empty_l. split; [by intros [= ->] | by intros ->].
  - destruct s as [|b s]; [by split|]. rewrite app_String.
    case_decide as Hab.
    + subst b. rewrite IH. split; [by intros -> | by intros [= ->]].
    + split; [done | intros [= -> _]; done].
Qed.

Lemma startsWith_true (p s : string) :
  Js.startsWith p s = true ↔ ∃ r, s = p +:+ r.
Proof.
  unfold Js.startsWith. rewrite bool_decide_eq_true. unfold is_Some.
  by setoid_rewrite stripPrefix_Some.
Qed.

(** [indexOf] finds the needle exactly when it occurs. *)
Lemma includes_true (needle s : string) :
  Js.includes needle s = true ↔ ∃ a b, s = a +:+ needle +:+ b.
Proof.
  induction s as [|c s IH].
  - simpl. destruct (Js.startsWith needle "") eqn:Hp.
    + apply startsWith_true in Hp as [r Hr]. split; [|done].
      intros _. by exists "", r.
    + split; [done|]. intros ([|? a] & b & Hab); [|done].
      rewrite app_empty_l in Hab.
      assert (Js.startsWith needle "" = true) as Hp'
        by (apply startsWith_true; eauto).
      congruence.
  - cbn [Js.includes]. destruct (Js.startsWith needle (String c s)) eqn:Hp.
    + apply startsWith_true in Hp as [r Hr]. split; [|done].
      intros _. by exists "", r.
    + rewrite IH. split.
      * intros (a & b & ->). by exists (String c a), b.
      * intros ([|c' a] & b & Hab).
        -- rewrite app_empty_l in Hab.
           assert (Js.startsWith needle (String c s) = true) as Hp'
             by (apply startsWith_true; eauto).
           congruence.
        -- rewrite app_String in Hab. injection Hab as -> ->. eauto.
Qed.

Lemma toLowerCase_app (s t : string) :
  Js.toLowerCase (s +:+ t) = Js.toLowerCase s +:+ Js.toLowerCase t.
Proof.
  induction s as [|c s IH]; [done|].
  rewrite app_String. simpl. by rewrite IH, app_String.
Qed.

Lemma toLowerCase_app_inv (s x y : string) :
  Js.toLowerCase s = x +:+ y →
  ∃ s1 s2, s = s1 +:+ s2 ∧ Js.toLowerCase s1 = x ∧ Js.toLowerCase s2 = y.
Proof.
  revert s. induction x as [|c x IH]; intros s Hs.
  - exists "", s. by rewrite app_empty_l in Hs.
  - destruct s as [|d s]; [done|]. rewrite app_String in Hs. simpl in Hs.
    injection Hs as Hc Hs. apply IH in Hs as (s1 & s2 & -> & <- & <-).
    exists (String d s1), s2. by rewrite app_String; simpl; rewrite Hc.
Qed.

Lemma includes_toLowerCase (needle s : string) :
  Js.includes needle (Js.toLowerCase s) = true
  ↔ containsIgnoringCase needle s.
Proof.
  rewrite includes_true. unfold containsIgnoringCase. split.
  - intros (a' & b' & H).
    apply toLowerCase_app_inv in H as (a & mb & -> & _ & H).
    apply toLowerCase_app_inv in H as (m & b & -> & Hm & _). eauto.
  - intros (a & m & b & -> & <-). rewrite !toLowerCase_app. eauto.
Qed.

Lemma takeDigits_allDigits (s : string) : Js.allDigits (Js.takeDigits s) = true.
Proof.
  induction s as [|c s IH]; [done|]. simpl.
  destruct (Js.isDigit c) eqn:Hc; [|done]. simpl. by rewrite Hc, IH.
Qed.

Lemma takeDigits_id (d : string) :
  Js.allDigits d = true → Js.takeDigits d = d.
Proof.
  induction d as [|c d IH]; [done|]. simpl.
  intros [Hc Hd]%andb_prop. by rewrite Hc, IH.
Qed.

Lemma isDigit_not_space (c : ascii) :
  Js.isDigit c = true → Js.isWhiteSpace c = false.
Proof. by destruct c as [[] [] [] [] [] [] [] []]. Qed.

Lemma isDigit_not_sign (c : ascii) :
  Js.isDigit c = true → c ≠ "-"%char ∧ c ≠ "+"%char.
Proof. by destruct c as [[] [] [] [] [] [] [] []]. Qed.

(** [parseInt] of a non-empty run of digits is the number they write. *)
Lemma parseInt_digits (d : string) :
  d ≠ "" → Js.allDigits d = true → Js.parseInt d = Js.Int (Js.digitsValue d).
Proof.
  destruct d as [|c d]; [done|]. intros _ Hd.
  pose proof Hd as [Hc Hd']%andb_prop.
  unfold Js.parseInt. cbn [Js.trimStart].
  rewrite (isDigit_not_space _ Hc).
  destruct (isDigit_not_sign _ Hc) as [Hm Hp].
  assert (match String c d with
          | String "-"%char r => (-1, r)
          | String "+"%char r => (1, r)
          | _ => (1, String c d)
          end = (1, String c d)) as ->.
  { by destruct c as [[] [] [] [] [] [] [] []]. }
  rewrite (takeDigits_id _ Hd). f_equal. lia.
Qed.

Lemma matchHere_digits (s f d : string) :
  Js.matchHere s = Some (f, d) → d ≠ "" ∧ Js.allDigits d = true.
Proof.
  revert f. induction s as [|c s IH]; intros f; [done|]. simpl.
  destruct (Js.isLineTerminator c); [done|].
  destruct (Js.matchHere s) as [[f' d']|].
  - intros [= <- <-]. eauto.
  - case_decide; [|done].
    destruct (Js.takeDigits s) as [|c' d'] eqn:Hd; [done|].
    intros [= <- <-]. split; [done|]. rewrite <- Hd. apply takeDigits_allDigits.
Qed.

Lemma matchFileLine_digits (s f d : string) :
  Js.matchFileLine s = Some (f, d) → d ≠ "" ∧ Js.allDigits d = true.
Proof.
  induction s as [|c s IH]; simpl.
  - done.
  - destruct (Js.isLineTerminator c).
    + apply IH.
    + destruct (Js.matchHere s) as [[f' d']|] eqn:Hs.
      * intros [= <- <-]. by eapply matchHere_digits.
      * case_decide; [|apply IH].
        destruct (Js.takeDigits s) as [|c' d'] eqn:Hd; [apply IH|].
        intros [= <- <-]. split; [done|].
        rewrite <- Hd. apply takeDigits_allDigits.
Qed.

Lemma matchHere_allDigits (d : string) :
  Js.allDigits d = true → Js.matchHere d = None.
Proof.
  induction d as [|c d IH]; [done|]. simpl. intros [Hc Hd]%andb_prop.
  rewrite (IH Hd). by destruct c as [[] [] [] [] [] [] [] []].
Qed.

(** A line that passes the anchored test of [parseDetails] is matched by the
    pattern that extracts the two groups. *)
Lemma testFileLineEnd_match (s : string) :
  Js.testFileLineEnd s = true → is_Some (Js.matchFileLine s).
Proof.
  induction s as [|c s IH]; [done|].
  cbn [Js.testFileLineEnd Js.matchFileLine].
  intros [H|H]%orb_prop.
  - apply andb_prop in H as [[Hc Hs]%andb_prop Hd].
    apply bool_decide_eq_true in Hc as ->. apply bool_decide_eq_true in Hs.
    simpl. rewrite (matchHere_allDigits _ Hd), (takeDigits_id _ Hd).
    by destruct s.
  - destruct (Js.matchHere (String c s)); [done|]. by apply IH.
Qed.



(** The string functions on small inputs. *)
Example split_bar_n :
  Js.split "|n" " a.php:5|n b.php:9|n " = [" a.php:5"; " b.php:9"; " "].
Proof. reflexivity. Qed.

Example split_empty_pieces : Js.split "::" "a::::b::" = ["a"; ""; "b"; ""].
Proof. reflexivity. Qed.

Example trim_both_ends : Js.trim "  a b  " = "a b".
Proof. reflexivity. Qed.

Example replace_first : Js.replace "::/" "::" "f::/C::/m" = "f::C::/m".
Proof. reflexivity. Qed.

Example match_drive_letter :
  Js.matchFileLine "C:/x/a.php:12" = Some ("C:/x/a.php", "12").
Proof. reflexivity. Qed.

Example match_is_greedy_and_unanchored :
  Js.matchFileLine "a:1 b:22x" = Some ("a:1 b", "22").
Proof. reflexivity. Qed.

Example match_needs_a_digit : Js.matchFileLine "#1 {main}" = None.
Proof. reflexivity. Qed.

Example test_is_anchored :
  Js.testFileLineEnd "a.php:12" = true ∧ Js.testFileLineEnd "a.php:12)" = false.
Proof. split; reflexivity. Qed.

Example parseInt_prefix : Js.parseInt " -12ab" = Js.Int (-12).
Proof. reflexivity. Qed.

Example parseInt_NaN : Js.parseInt "abc" = Js.NaN.
Proof. reflexivity. Qed.

Example toLowerCase_ascii :
  Js.toLowerCase "PHPUnit_Framework_SkippedTestError"
  = "phpunit_framework_skippedtesterror".
Proof. reflexivity. Qed.

(** ** The severity grouping *)

(** C9, as the code has it: for a member of [Type] the query of [TypeGroup]
    returns the severity of the fixed table, one of the four of [TypeKeys];
    for any other key it returns undefined, and raises no error. *)
Theorem TypeGroup_query (key : string) :
  (∀ t, key = Type_value t →
        Map_get TypeGroup key = Ok (Some (severity t))
        ∧ severity t ∈ TypeKeys)
  ∧ ((∀ t, key ≠ Type_value t) → Map_get TypeGroup key = Ok None).
Proof.
  split.
  - intros t ->. destruct t; (split; [by vm_compute | unfold TypeKeys; simpl]);
      repeat first [apply list_elem_of_here | apply list_elem_of_further].
  - intros Hkey. unfold Map_get, TypeGroup. f_equal. simpl.
    rewrite !lookup_insert_ne; [apply lookup_empty | ..];
      first [apply not_eq_sym, (Hkey PASSED) | apply not_eq_sym, (Hkey ERROR)
            | apply not_eq_sym, (Hkey WARNING) | apply not_eq_sym, (Hkey FAILURE)
            | apply not_eq_sym, (Hkey INCOMPLETE) | apply not_eq_sym, (Hkey RISKY)
            | apply not_eq_sym, (Hkey SKIPPED) | apply not_eq_sym, (Hkey FAILED)].
Qed.

Lemma TypeGroup_query_witness :
  (∀ t, "nunit" ≠ Type_value t)
  ∧ Map_get TypeGroup "nunit" = Ok None
  ∧ Map_get TypeGroup "warning" = Ok (Some SKIPPED).
Proof.
  split; [by intros []|]. split.
  - apply (proj2 (TypeGroup_query "nunit")). by intros [].
  - apply (proj1 (TypeGroup_query "warning") WARNING eq_refl).
Defined.

(** C9, as stated, fails: ["nunit"] is outside the enumeration and the query
    does not fail. *)
Lemma TypeGroup_unknown_key_is_silent :
  (∀ t, "nunit" ≠ Type_value t) ∧ ¬ failed (Map_get TypeGroup "nunit").
Proof. split; [by intros [] | by vm_compute]. Qed.

(** ** [lineAt] *)

Section lineAt.
Import Filesystem.
Context (lineNumber : Z).

Lemma close_settled (st : State) (a : string) :
  promise st = Resolved a → promise (close st) = Resolved a.
Proof.
  unfold close, onClose. intros H.
  destruct (closed st); [done|]. simpl. destruct (found st); [done|].
  simpl. by rewrite H.
Qed.

Lemma onLine_settled (line : string) (st : State) (a : string) :
  promise st = Resolved a → promise (onLine lineNumber line st) = Resolved a.
Proof.
  unfold onLine. intros H. case_decide; [|done]. simpl.
  rewrite (close_settled _ a); done.
Qed.

Lemma emit_settled (buffered : nat) (lines : list string) (st : State)
    (a : string) :
  promise st = Resolved a →
  promise (emit lineNumber buffered lines st) = Resolved a.
Proof.
  revert buffered st. induction lines as [|line lines IH]; intros buffered st H.
  - by apply close_settled.
  - simpl. destruct (closed st).
    + destruct buffered; [done|]. by apply IH, onLine_settled.
    + by apply IH, onLine_settled.
Qed.

Lemma emit_pending (buffered : nat) (lines : list string) (st : State) :
  closed st = false → found st = false → promise st = Pending →
  (∀ line, current st ≤ lineNumber →
     lines !! Z.to_nat (lineNumber - current st) = Some line →
     promise (emit lineNumber buffered lines st) = Resolved line)
  ∧ (lineNumber < current st
     ∨ current st + Z.of_nat (length lines) ≤ lineNumber →
     promise (emit lineNumber buffered lines st) = RejectedWith "").
Proof.
  revert st. induction lines as [|l lines IH]; intros st Hc Hf Hp.
  - split; [done|]. intros _. simpl. unfold close, onClose.
    rewrite Hc. simpl. rewrite Hf. simpl. by rewrite Hp.
  - simpl emit. rewrite Hc.
    destruct (decide (lineNumber = current st)) as [Heq|Hne].
    + split.
      * intros line _ Hline. rewrite Heq, Z.sub_diag in Hline.
        injection Hline as ->. apply emit_settled.
        unfold onLine. rewrite decide_True by done. simpl.
        unfold close, onClose. simpl. rewrite Hc. simpl. by rewrite Hp.
      * simpl length. lia.
    + assert (onLine lineNumber l st
              = {| current := current st + 1; found := found st;
                   closed := closed st; promise := promise st |}) as ->.
      { unfold onLine. by rewrite decide_False. }
      destruct (IH {| current := current st + 1; found := found st;
                      closed := closed st; promise := promise st |})
        as [IH1 IH2]; [done..|]. simpl in IH1, IH2.
      split.
      * intros line Hle Hline. apply IH1; [lia|].
        replace (Z.to_nat (lineNumber - current st))
          with (S (Z.to_nat (lineNumber - (current st + 1)))) in Hline by lia.
        done.
      * intros H. apply IH2. simpl length in H. lia.
Qed.
End lineAt.

(** C10: [lineAt] resolves with the line at index [lineNumber] when the file
    has more than [lineNumber] lines, and rejects otherwise; however many
    lines the interface still emits after it was closed. *)
Theorem lineAt_resolves_or_rejects (buffered : nat) (lines : list string)
    (lineNumber : Z) :
  (∀ line, 0 ≤ lineNumber → lines !! Z.to_nat lineNumber = Some line →
     Filesystem.lineAt buffered lines lineNumber = Filesystem.Resolved line)
  ∧ (lineNumber < 0 ∨ Z.of_nat (length lines) ≤ lineNumber →
     Filesystem.lineAt buffered lines lineNumber
     = Filesystem.RejectedWith "").
Proof.
  unfold Filesystem.lineAt.
  destruct (emit_pending lineNumber buffered lines Filesystem.init)
    as [H1 H2]; [done..|].
  simpl in H1, H2. rewrite Z.sub_0_r in H1. split.
  - intros line Hle Hline. by apply H1.
  - intros H. apply H2. lia.
Qed.

Lemma lineAt_resolves_or_rejects_witness :
  Filesystem.lineAt 0 ["<?php"; "class T"; "{"] 1 = Filesystem.Resolved "class T"
  ∧ Filesystem.lineAt 0 ["<?php"; "class T"; "{"] 3
    = Filesystem.RejectedWith "".
Proof.
  split.
  - apply (proj1 (lineAt_resolves_or_rejects 0 ["<?php"; "class T"; "{"] 1));
      [lia | reflexivity].
  - apply (proj2 (lineAt_resolves_or_rejects 0 ["<?php"; "class T"; "{"] 3)).
    right. simpl. lia.
Defined.

(** ** The entry points *)

(** C6, as the code has it: [TeamCityParser.parse] parses the text it is
    given; [JUnitParser.parse] takes the name of a file, reads that file and
    parses its content, and fails when the file cannot be read. *)
Theorem parse_entry_points :
  (∀ windows lineNumber minimistString content,
     TeamCityParser.parse windows lineNumber minimistString content
     = TeamCityParser.parseString windows lineNumber minimistString content)
  ∧ (∀ readFileAsync xml2json fileName content,
       readFileAsync fileName = Ok content →
       JUnitParser.parse readFileAsync xml2json fileName
       = JUnitParser.parseString xml2json content)
  ∧ (∀ readFileAsync xml2json fileName e,
       readFileAsync fileName = Fail e →
       JUnitParser.parse readFileAsync xml2json fileName = Fail e).
Proof.
  split; [reflexivity|].
  split; intros readFileAsync xml2json fileName ? Hread;
    unfold JUnitParser.parse, Parser.parseFile; by rewrite Hread.
Qed.

Lemma parse_entry_points_witness :
  JUnitParser.parse Examples.oneFile Examples.xmlReader "junit.xml"
  = JUnitParser.parseString Examples.xmlReader "<testsuites/>"
  ∧ JUnitParser.parse Examples.oneFile Examples.xmlReader "<testsuites/>"
    = Fail (Rejected "ENOENT").
Proof.
  split.
  - apply (proj1 (proj2 parse_entry_points)). reflexivity.
  - apply (proj2 (proj2 parse_entry_points)). reflexivity.
Defined.

(** C6, as stated, fails for [JUnitParser]: its [parse] reads the file named
    by its argument, so it differs from [parseString] on the same text, in
    both directions. *)
Lemma JUnit_parse_reads_a_file :
  JUnitParser.parse Examples.oneFile Examples.xmlReader "junit.xml" = Ok []
  ∧ failed (JUnitParser.parseString Examples.xmlReader "junit.xml")
  ∧ JUnitParser.parseString Examples.xmlReader "<testsuites/>" = Ok []
  ∧ failed
      (JUnitParser.parse Examples.oneFile Examples.xmlReader "<testsuites/>").
Proof. by vm_compute. Qed.

(** ** [JUnitParser] *)

Section JUnit.
Import JUnitParser.


Lemma parseDetails_total (message : string) :
  ∃ details, parseDetails message = Ok details.
Proof.
  apply mapM_total, Forall_forall. intros path [Hpath _]%list_elem_of_filter.
  destruct (testFileLineEnd_match _ Hpath) as [[file line] ->]. simpl. tauto.
Qed.

(** What [parseTestCase] returns when there is a fault node with text and
    attributes. *)
Lemma parseTestCase_fault (testCaseNode : TestCaseNode)
    (a : gmap string string) (faultNode : FaultNode) (message : string)
    (fa : gmap string string) :
  attrs testCaseNode = Some a →
  getFaultNode testCaseNode = Ok (Some faultNode) →
  ftext faultNode = Some message → fattr faultNode = Some fa →
  ∃ details testCase tc fault,
    parseDetails (Js.replaceCrLf message) = Ok details
    ∧ TestCase.file testCase = a !! "file"
    ∧ TestCase.line testCase
      = numAdd (Js.parseInt (default "1" (truthy (a !! "line")))) (-1)
    ∧ parseTestCase testCaseNode = Ok tc
    ∧ (TestCase.file tc, TestCase.line tc) = currentFile details testCase
    ∧ TestCase.type tc = Some (type faultNode)
    ∧ TestCase.fault tc = Some fault
    ∧ Fault.details fault
      = filter (λ detail, Some (Detail.file detail) ≠ a !! "file") details.
Proof.
  intros Ha Hfn Hm Hfa.
  destruct (parseDetails_total (Js.replaceCrLf message)) as [details Hd].
  unfold parseTestCase. rewrite Ha. simpl. rewrite Hfn. simpl.
  unfold parseMessage, crlf2lf. rewrite Hm. simpl. rewrite Hd. simpl.
  match goal with
  | |- context [currentFile details ?t] =>
      exists details, t; destruct (currentFile details t) as [file line] eqn:Hc
  end.
  rewrite Hfa. simpl. eexists _, _. repeat split; reflexivity.
Qed.




Lemma currentFile_last (details : list Detail) (testCase : TestCase)
    (pre post : list Detail) (d : Detail) :
  details = pre ++ d :: post →
  TestCase.file testCase = Some (Detail.file d) →
  Forall (λ d', TestCase.file testCase ≠ Some (Detail.file d')) post →
  currentFile details testCase = (Some (Detail.file d), Detail.line d).
Proof.
  intros -> Hd Hpost. unfold currentFile.
  rewrite filter_app, filter_cons_True by done.
  replace (filter _ post) with (@nil Detail).
  - by rewrite last_snoc.
  - symmetry. induction Hpost as [|d' post Hd' _ IH]; [done|].
    by rewrite filter_cons_False.
Qed.

Lemma currentFile_none (details : list Detail) (testCase : TestCase) :
  Forall (λ d, TestCase.file testCase ≠ Some (Detail.file d)) details →
  currentFile details testCase
  = (TestCase.file testCase, TestCase.line testCase).
Proof.
  intros H. unfold currentFile.
  replace (filter _ details) with (@nil Detail); [done|].
  symmetry. induction H as [|d' post Hd' _ IH]; [done|].
  by rewrite filter_cons_False.
Qed.

(** The file that [currentFile] returns is always the nominal one. *)
Lemma currentFile_file (details : list Detail) (testCase : TestCase) :
  (currentFile details testCase).1 = TestCase.file testCase.
Proof.
  unfold currentFile.
  destruct (last (filter _ details)) as [d|] eqn:Hlast; [|done].
  apply last_Some_elem_of, list_elem_of_filter in Hlast as [Hd _].
  by rewrite Hd.
Qed.

(** C3: with a fault node, the returned file and line are those of the last
    detail whose file is the test case's nominal file, and the nominal ones
    when there is none; the fault's details are the details whose file is
    not the returned file, in order.  With two details of which only the
    second is in the nominal file, the location is the second one's and the
    details keep the first only. *)
Theorem parseTestCase_override (testCaseNode : TestCaseNode)
    (a : gmap string string) (faultNode : FaultNode) (message : string)
    (fa : gmap string string) :
  attrs testCaseNode = Some a →
  getFaultNode testCaseNode = Ok (Some faultNode) →
  ftext faultNode = Some message → fattr faultNode = Some fa →
  ∃ details tc fault,
    parseDetails (Js.replaceCrLf message) = Ok details
    ∧ parseTestCase testCaseNode = Ok tc
    ∧ TestCase.fault tc = Some fault
    ∧ (∀ pre d post,
         details = pre ++ d :: post →
         Some (Detail.file d) = a !! "file" →
         Forall (λ d', Some (Detail.file d') ≠ a !! "file") post →
         TestCase.file tc = Some (Detail.file d)
         ∧ TestCase.line tc = Detail.line d)
    ∧ (Forall (λ d, Some (Detail.file d) ≠ a !! "file") details →
       TestCase.file tc = a !! "file"
       ∧ TestCase.line tc
         = numAdd (Js.parseInt (default "1" (truthy (a !! "line")))) (-1))
    ∧ Fault.details fault
      = filter (λ d, Some (Detail.file d) ≠ TestCase.file tc) details
    ∧ (∀ d1 d2,
         details = [d1; d2] →
         Some (Detail.file d2) = a !! "file" →
         Some (Detail.file d1) ≠ a !! "file" →
         TestCase.file tc = Some (Detail.file d2)
         ∧ TestCase.line tc = Detail.line d2
         ∧ Fault.details fault = [d1]).
Proof.
  intros Ha Hfn Hm Hfa.
  destruct (parseTestCase_fault _ _ _ _ _ Ha Hfn Hm Hfa)
    as (details & testCase & tc & fault & Hd & Hfile & Hline & Htc & Hcur
        & _ & Hfault & Hdetails).
  assert (Hlast : ∀ pre d post,
         details = pre ++ d :: post →
         Some (Detail.file d) = a !! "file" →
         Forall (λ d', Some (Detail.file d') ≠ a !! "file") post →
         TestCase.file tc = Some (Detail.file d)
         ∧ TestCase.line tc = Detail.line d).
  { intros pre d post Hsplit Hdfile Hpost.
    rewrite (currentFile_last _ _ pre post d) in Hcur.
    - by injection Hcur.
    - done.
    - by rewrite Hfile.
    - rewrite Hfile. eapply Forall_impl; [exact Hpost|]. naive_solver. }
  assert (Hfinal : TestCase.file tc = a !! "file").
  { rewrite <- Hfile, <- (currentFile_file details testCase).
    by rewrite <- Hcur. }
  exists details, tc, fault. repeat (split; [done|]). split; [|split].
  - intros Hnone. rewrite currentFile_none in Hcur.
    + injection Hcur as -> ->. done.
    + rewrite Hfile. eapply Forall_impl; [exact Hnone|]. naive_solver.
  - by rewrite Hfinal.
  - intros d1 d2 -> H2 H1.
    destruct (Hlast [d1] d2 [] eq_refl H2) as [H3 H4]; [constructor|].
    repeat split; [done..|]. rewrite Hdetails.
    rewrite filter_cons_True by done.
    rewrite filter_cons_False by (intros Hn; by apply Hn). done.
Qed.

Lemma parseTestCase_override_witness :
  ∃ tc fault,
    parseTestCase Examples.failedInOwnFile = Ok tc
    ∧ TestCase.fault tc = Some fault
    ∧ TestCase.file tc = Some "C:/tests/PHPUnitTest.php"
    ∧ TestCase.line tc = Js.Int 19
    ∧ Fault.details fault = [Detail.mk "C:/vendor/Helper.php" (Js.Int 6)].
Proof.
  destruct (parseTestCase_override Examples.failedInOwnFile _ _ _ _
              eq_refl eq_refl eq_refl eq_refl)
    as (details & tc & fault & Hd & Htc & Hfault & _ & _ & _ & Htwo).
  vm_compute in Hd. injection Hd as <-.
  destruct (Htwo _ _ eq_refl) as (Hfile & Hline & Hdetails);
    [reflexivity | by vm_compute |].
  exists tc, fault. repeat split; assumption.
Defined.
End JUnit.

(** ** The fault of a test case and its type *)

Lemma faultIffNotPassed_passed (tc : TestCase) :
  TestCase.fault tc = None → TestCase.type tc = Some PASSED →
  faultIffNotPassed tc.
Proof.
  intros Hf Ht. left. split; [done|]. rewrite Hf. by intros [[? [=]] _].
Qed.

Lemma faultIffNotPassed_faulty (tc : TestCase) :
  is_Some (TestCase.fault tc) → TestCase.type tc ≠ Some PASSED →
  faultIffNotPassed tc.
Proof. intros Hf Ht. right. split; [by intros [_ ?] | done]. Qed.

Section invariant.
Import JUnitParser.

Lemma parseErrorType_not_passed (e : option Element) (t : Type_) :
  parseErrorType e = Ok t → t ≠ PASSED.
Proof.
  unfold parseErrorType. destruct e as [e|]; [simpl|done].
  destruct (attr e) as [a|]; [simpl|done].
  destruct (a !! "type") as [declared|]; [simpl|done].
  repeat case_match; by intros [= <-].
Qed.

Lemma getFaultNode_not_passed (testCaseNode : TestCaseNode)
    (faultNode : FaultNode) :
  getFaultNode testCaseNode = Ok (Some faultNode) → type faultNode ≠ PASSED.
Proof.
  unfold getFaultNode.
  destruct (error testCaseNode) as [l|].
  { destruct (parseErrorType (l !! 0%nat)) as [t|] eqn:Ht; [simpl|done].
    intros [= <-]. by eapply parseErrorType_not_passed. }
  destruct (warning testCaseNode); [by intros [= <-]|].
  destruct (failure testCaseNode); [by intros [= <-]|].
  case_bool_decide; by intros [= <-].
Qed.

Lemma parseTestCase_invariant (testCaseNode : TestCaseNode) (tc : TestCase) :
  parseTestCase testCaseNode = Ok tc → faultIffNotPassed tc.
Proof.
  unfold parseTestCase. destruct (attrs testCaseNode) as [a|]; [simpl|done].
  destruct (getFaultNode testCaseNode) as [[faultNode|]|] eqn:Hfn;
    [simpl| |done].
  - destruct (parseMessage faultNode) as [m|]; [simpl|done].
    destruct (parseDetails m) as [ds|]; [simpl|done].
    destruct (currentFile ds _) as [file line].
    destruct (fattr faultNode); [simpl|done]. intros [= <-].
    apply faultIffNotPassed_faulty; simpl; [done|].
    intros [= Ht]. by apply getFaultNode_not_passed in Hfn.
  - intros [= <-]. by apply faultIffNotPassed_passed.
Qed.

Lemma mapM_Forall {A B} (f : A → Result B) (P : B → Prop) (l : list A)
    (ys : list B) :
  (∀ x y, x ∈ l → f x = Ok y → P y) → mapM f l = Ok ys → Forall P ys.
Proof.
  intros Hf H%mapM_Ok. induction H as [|x y l ys Hxy _ IH]; constructor.
  - apply (Hf x); [left | done].
  - apply IH. intros x' y' Hx'. apply Hf. by right.
Qed.

Lemma TestSuiteNode_nested_ind (P : TestSuiteNode → Prop) :
  (∀ ts tc,
     (∀ l, ts = Some l → Forall P l) →
     P {| testsuite := ts; testcase := tc |}) →
  ∀ testSuitNode, P testSuitNode.
Proof.
  intros H. fix IH 1. intros [[l|] tc]; apply H.
  - assert (Forall P l) as Hl.
    { induction l as [|x l IHl]; constructor; [apply IH | exact IHl]. }
    by intros l' [= <-].
  - by intros l' [=].
Qed.

Lemma parseTestSuite_invariant (testSuitNode : TestSuiteNode)
    (tcs : list TestCase) :
  parseTestSuite testSuitNode = Ok tcs → Forall faultIffNotPassed tcs.
Proof.
  revert tcs. induction testSuitNode as [ts tc IH] using TestSuiteNode_nested_ind.
  intros tcs. simpl. destruct ts as [l|].
  - specialize (IH l eq_refl). intros (ls & Hls & [= <-])%bind_Ok.
    apply Forall_concat. apply mapM_Ok in Hls.
    induction Hls as [|x y l ls Hxy _ IHls]; [constructor|].
    inversion IH; subst. constructor; [eauto | eauto].
  - destruct tc as [l|]; [|by intros [= <-]].
    apply mapM_Forall. intros x y _. apply parseTestCase_invariant.
Qed.
End invariant.

Section TeamCity_invariant.
Import TeamCityParser.
Context (windows : bool).
Context (lineNumber : option string → string → Result Js.number).
Context (minimistString : string → list string).

Lemma convertGroup_invariant (group : list Event) (tc : TestCase) :
  convertGroup windows lineNumber group = Ok (Ok tc) → faultIffNotPassed tc.
Proof.
  unfold convertGroup.
  generalize (match group with
              | [a; b] => [a; {[ "type" := Some "testPassed" ]}; b]
              | _ => group
              end).
  intros g. destruct (g !! 0%nat) as [start|]; [simpl|done].
  destruct (get "locationHint" start) as [hint|]; [simpl|done].
  destruct (g !! 1%nat) as [error|]; [simpl|done].
  destruct (g !! 2%nat) as [finish|]; [simpl|done].
  case_decide as Htype.
  - destruct (lineNumber _ _) as [line|]; [simpl|done].
    intros [= <-]. by apply faultIffNotPassed_passed.
  - destruct (convertToDetail windows (get "details" error)) as [details|];
      [simpl|done].
    destruct (details !! 0%nat); intros [= <-];
      by apply faultIffNotPassed_faulty.
Qed.

Lemma convertToTestCase_invariant (groups : list (list Event))
    (tcs : list TestCase) :
  convertToTestCase windows lineNumber groups = Ok tcs →
  Forall faultIffNotPassed tcs.
Proof.
  unfold convertToTestCase, Promise_all.
  intros (promises & Hp & Hall)%bind_Ok.
  assert (Forall (λ p, ∀ tc, p = Ok tc → faultIffNotPassed tc) promises) as H.
  { eapply mapM_Forall; [|exact Hp]. intros g p _ Hg tc ->.
    by eapply convertGroup_invariant. }
  eapply mapM_Forall; [|exact Hall]. intros p tc Hin Hptc.
  rewrite Forall_forall in H. by apply (H p Hin).
Qed.
End TeamCity_invariant.

(** C8: every test case that either parser returns has no fault and type
    [PASSED], or a fault and another type, and not both. *)
Theorem fault_iff_not_passed :
  (∀ xml2json content tcs,
     JUnitParser.parseString xml2json content = Ok tcs →
     Forall faultIffNotPassed tcs)
  ∧ (∀ readFileAsync xml2json fileName tcs,
       JUnitParser.parse readFileAsync xml2json fileName = Ok tcs →
       Forall faultIffNotPassed tcs)
  ∧ (∀ windows lineNumber minimistString content tcs,
       TeamCityParser.parse windows lineNumber minimistString content
       = Ok tcs →
       Forall faultIffNotPassed tcs).
Proof.
  assert (HJ : ∀ xml2json content tcs,
     JUnitParser.parseString xml2json content = Ok tcs →
     Forall faultIffNotPassed tcs).
  { intros xml2json content tcs. unfold JUnitParser.parseString.
    intros (json & _ & (node & _ & H)%bind_Ok)%bind_Ok.
    by eapply parseTestSuite_invariant. }
  split; [done|]. split.
  - intros readFileAsync xml2json fileName tcs.
    unfold JUnitParser.parse, Parser.parseFile.
    intros (content & _ & H)%bind_Ok. by eapply HJ.
  - intros windows lineNumber minimistString content tcs.
    apply convertToTestCase_invariant.
Qed.

Lemma fault_iff_not_passed_witness :
  (∃ tcs, JUnitParser.parse Examples.reportFile Examples.reportReader
            "junit.xml" = Ok tcs
          ∧ length tcs = 3%nat ∧ Forall faultIffNotPassed tcs)
  ∧ (∃ tcs, TeamCityParser.parse false Examples.lineOf Examples.argv
              Examples.teamcityOutput = Ok tcs
            ∧ length tcs = 2%nat ∧ Forall faultIffNotPassed tcs).
Proof.
  split.
  - eexists. split; [by vm_compute|]. split; [reflexivity|].
    apply (proj1 (proj2 fault_iff_not_passed)
             Examples.reportFile Examples.reportReader "junit.xml").
    by vm_compute.
  - eexists. split; [by vm_compute|]. split; [reflexivity|].
    apply (proj2 (proj2 fault_iff_not_passed)
             false Examples.lineOf Examples.argv Examples.teamcityOutput).
    by vm_compute.
Defined.

(** ** [TeamCityParser]: grouping *)

Section grouping.
Import TeamCityParser.

(** The state of the reduction in [groupByType] when the groups [closed]
    are closed and [current] is being accumulated. *)
Lemma groupByType_step_spec (closed : list (list Event))
    (current : list Event) (item : Event) :
  groupByType_step
    (closed ++ match current with [] => [] | _ => [current] end,
     length closed) item
  = if decide (isFinished item)
    then ((closed ++ [current ++ [item]]) ++ [],
          length (closed ++ [current ++ [item]]))
    else (closed ++ [current ++ [item]], length closed).
Proof.
  unfold groupByType_step.
  assert (match (closed ++ match current with [] => [] | _ => [current] end)
                  !! length closed with
          | Some _ => closed ++ match current with [] => [] | _ => [current] end
          | None =>
              (closed ++ match current with [] => [] | _ => [current] end)
              ++ [[]]
          end = closed ++ [current]) as ->.
  { destruct current as [|x current].
    - by rewrite app_nil_r, lookup_ge_None_2.
    - by rewrite list_lookup_middle. }
  replace (alter (λ group, group ++ [item]) (length closed)
             (closed ++ [current]))
    with (closed ++ [current ++ [item]]).
  - unfold isFinished. case_decide; [|done].
    rewrite app_nil_r, length_app. simpl. f_equal. lia.
  - rewrite alter_app_r_alt by lia. by rewrite Nat.sub_diag.
Qed.

Lemma groupByType_fold (items : list Event) (closed : list (list Event))
    (current : list Event) :
  ∃ counter,
    foldl groupByType_step
      (closed ++ match current with [] => [] | _ => [current] end,
       length closed) items
    = (closed ++ perTestWindows current items, counter)
    ∧ (counter ≤ length (closed ++ perTestWindows current items))%nat.
Proof.
  revert closed current.
  induction items as [|item items IH]; intros closed current.
  - exists (length closed). split; [done|]. rewrite length_app. lia.
  - cbn [foldl perTestWindows]. rewrite groupByType_step_spec.
    case_decide.
    + destruct (IH (closed ++ [current ++ [item]]) []) as (n & -> & Hn).
      exists n. by rewrite <- app_assoc in *.
    + assert (match current ++ [item] with
              | [] => []
              | _ => [current ++ [item]]
              end = [current ++ [item]]) as Hcur by (by destruct current).
      rewrite <- Hcur. apply IH.
Qed.

(** The counter of [groupByType] never passes the length of the array it
    indexes. *)
Lemma groupByType_counter (items : list Event) :
  ((foldl groupByType_step ([], 0%nat) items).2
   ≤ length (foldl groupByType_step ([], 0%nat) items).1)%nat.
Proof.
  destruct (groupByType_fold items [] []) as (n & H & Hn).
  simpl in H. by rewrite H.
Qed.

Lemma groupByType_perTestWindows (items : list Event) :
  groupByType items = perTestWindows [] items.
Proof.
  unfold groupByType.
  destruct (groupByType_fold items [] []) as (n & H & _).
  simpl in H. by rewrite H.
Qed.

Lemma perTestWindows_concat (current items : list Event) :
  concat (perTestWindows current items) = current ++ items.
Proof.
  revert current. induction items as [|item items IH]; intros current.
  - destruct current; simpl; by rewrite ?app_nil_r.
  - simpl. case_decide.
    + simpl. by rewrite IH, <- app_assoc.
    + by rewrite IH, <- app_assoc.
Qed.

(** In every group a [testFinished] event can only be the last one. *)
Lemma perTestWindows_closed (current items : list Event) :
  Forall (λ item, ¬ isFinished item) current →
  Forall
    (λ group, ∃ body item,
       group = body ++ [item] ∧ Forall (λ item, ¬ isFinished item) body)
    (perTestWindows current items).
Proof.
  revert current. induction items as [|item items IH]; intros current Hc.
  - destruct current as [|x current] using rev_ind; [constructor|].
    apply Forall_app in Hc as [Hc _].
    assert (perTestWindows (current ++ [x]) [] = [current ++ [x]]) as ->
      by (by destruct current).
    constructor; [|constructor]. eauto.
  - simpl. case_decide.
    + constructor; [eauto|]. by apply IH.
    + apply IH. apply Forall_app. split; [done|]. by constructor.
Qed.

(** Every group but the last one ends in a [testFinished] event. *)
Lemma perTestWindows_ends (current items : list Event)
    (groups : list (list Event)) (final : list Event) :
  perTestWindows current items = groups ++ [final] →
  Forall (λ group, ∃ body item, group = body ++ [item] ∧ isFinished item)
    groups.
Proof.
  revert current groups.
  induction items as [|item items IH]; intros current groups.
  - simpl. destruct current; destruct groups as [|? [|]]; try done;
      by constructor.
  - simpl. case_decide.
    + destruct groups as [|g groups]; [constructor|].
      intros [= <- H']. constructor; [eauto|]. by eapply IH.
    + apply IH.
Qed.
End grouping.

(** ** [TeamCityParser]: conversion *)

Section conversion.
Import TeamCityParser.
Context (windows : bool).
Context (lineNumber : option string → string → Result Js.number).

(** A group of two events is converted as the group with a [testPassed]
    event in the middle. *)
Lemma convertGroup_two (a b : Event) :
  convertGroup windows lineNumber [a; b]
  = convertGroup windows lineNumber [a; {[ "type" := Some "testPassed" ]}; b].
Proof. reflexivity. Qed.

Lemma typeOf_testPassed :
  typeOf ({[ "type" := Some "testPassed" ]} : Event) = Some PASSED.
Proof. by vm_compute. Qed.

(** What the callback returns for a group of two events. *)
Lemma convertGroup_passed (start finish : Event) (hint : string) :
  get "locationHint" start = Some hint →
  convertGroup windows lineNumber [start; finish]
  = Ok (line ← lineNumber (locationHintData windows hint !! 0%nat)
                 ("function "
                  +:+ default "undefined"
                        (locationHintData windows hint !! 2%nat));
        Ok {| TestCase.name := locationHintData windows hint !! 2%nat;
              TestCase.class := locationHintData windows hint !! 1%nat;
              TestCase.classname := None;
              TestCase.file := locationHintData windows hint !! 0%nat;
              TestCase.line := line;
              TestCase.time := Js.parseFloat (get "duration" finish);
              TestCase.type := Some PASSED;
              TestCase.fault := None |}).
Proof.
  intros Hhint. unfold convertGroup. simpl. rewrite Hhint. simpl.
  rewrite typeOf_testPassed. by rewrite decide_True.
Qed.

(** What the callback returns for a group of three events or more whose
    middle event is not a passed one. *)
Lemma convertGroup_fault (start error finish : Event) (rest : list Event)
    (hint : string) (details : list Detail) :
  get "locationHint" start = Some hint →
  typeOf error ≠ Some PASSED →
  convertToDetail windows (get "details" error) = Ok details →
  convertGroup windows lineNumber (start :: error :: finish :: rest)
  = Ok (Ok {| TestCase.name := locationHintData windows hint !! 2%nat;
              TestCase.class := locationHintData windows hint !! 1%nat;
              TestCase.classname := None;
              TestCase.file :=
                match details !! 0%nat with
                | Some detail => Some (Detail.file detail)
                | None => locationHintData windows hint !! 0%nat
                end;
              TestCase.line :=
                match details !! 0%nat with
                | Some detail => Detail.line detail
                | None => Js.Int 0
                end;
              TestCase.time := Js.parseFloat (get "duration" finish);
              TestCase.type := typeOf error;
              TestCase.fault :=
                Some {| Fault.message := get "message" error;
                        Fault.type := None;
                        Fault.details :=
                          filter
                            (λ detail,
                               Some (Detail.file detail)
                               ≠ locationHintData windows hint !! 0%nat)
                            details |} |}).
Proof.
  intros Hhint Htype Hdetails. unfold convertGroup.
  simpl. rewrite Hhint. simpl. rewrite decide_False by done.
  rewrite Hdetails. simpl. by destruct (details !! 0%nat).
Qed.


(** A text with a segment that does not match makes [convertToDetail]
    throw, and so does a missing text. *)
Lemma convertToDetail_failed (content : option string) :
  (∀ text, content = Some text →
           ∃ segment, segment ∈ segments text
                      ∧ Js.matchFileLine segment = None) →
  failed (convertToDetail windows content).
Proof.
  intros H. unfold convertToDetail. destruct content as [text|]; [simpl|done].
  destruct (H text eq_refl) as (segment & Hin & Hm).
  eapply mapM_failed; [exact Hin|]. unfold toDetail. by rewrite Hm.
Qed.

Lemma convertGroup_failed (start error finish : Event) (rest : list Event) :
  typeOf error ≠ Some PASSED →
  failed (convertToDetail windows (get "details" error)) →
  failed (convertGroup windows lineNumber (start :: error :: finish :: rest)).
Proof.
  intros Htype Hd. unfold convertGroup.
  simpl. destruct (get "locationHint" start); [simpl|done].
  rewrite decide_False by done.
  by destruct (convertToDetail windows (get "details" error)).
Qed.

Lemma convertToTestCase_failed (groups : list (list Event))
    (group : list Event) :
  group ∈ groups → failed (convertGroup windows lineNumber group) →
  failed (convertToTestCase windows lineNumber groups).
Proof.
  intros Hin Hg. unfold convertToTestCase. apply bind_failed. left.
  by eapply mapM_failed.
Qed.
End conversion.

(** C5: [groupByType] walks the events in order and closes the current
    group right after each [testFinished] event; a group of two events is
    converted with a [testPassed] event put in the middle, so that the
    stream of a [testStarted] and a [testFinished] event gives one test case
    of type [PASSED]. *)
Theorem groupByType_per_test_windows :
  (∀ items,
     TeamCityParser.groupByType items = perTestWindows [] items
     ∧ concat (TeamCityParser.groupByType items) = items
     ∧ Forall
         (λ group, ∃ body item,
            group = body ++ [item]
            ∧ Forall (λ item, ¬ isFinished item) body)
         (TeamCityParser.groupByType items)
     ∧ (∀ groups final,
          TeamCityParser.groupByType items = groups ++ [final] →
          Forall
            (λ group, ∃ body item, group = body ++ [item] ∧ isFinished item)
            groups))
  ∧ (∀ windows lineNumber a b,
       TeamCityParser.convertGroup windows lineNumber [a; b]
       = TeamCityParser.convertGroup windows lineNumber
           [a; {[ "type" := Some "testPassed" ]}; b])
  ∧ TeamCityParser.typeOf {[ "type" := Some "testPassed" ]} = Some PASSED
  ∧ (∀ windows lineNumber start finish hint line,
       ¬ isFinished start → isFinished finish →
       TeamCityParser.get "locationHint" start = Some hint →
       lineNumber
         (TeamCityParser.locationHintData windows hint !! 0%nat)
         ("function "
          +:+ default "undefined"
                (TeamCityParser.locationHintData windows hint !! 2%nat))
       = Ok line →
       ∃ tc,
         TeamCityParser.convertToTestCase windows lineNumber
           (TeamCityParser.groupByType [start; finish]) = Ok [tc]
         ∧ TestCase.type tc = Some PASSED
         ∧ TestCase.fault tc = None).
Proof.
  split; [|split; [|split]].
  - intros items. rewrite groupByType_perTestWindows.
    split; [done|]. split; [apply perTestWindows_concat|].
    split; [by apply perTestWindows_closed|].
    intros groups final. apply perTestWindows_ends.
  - intros. apply convertGroup_two.
  - apply typeOf_testPassed.
  - intros windows lineNumber start finish hint line Hs Hf Hhint Hline.
    rewrite groupByType_perTestWindows. simpl.
    rewrite decide_False, decide_True by done.
    unfold TeamCityParser.convertToTestCase. cbn [mapM].
    rewrite (convertGroup_passed _ _ _ _ hint Hhint), Hline. simpl.
    by eexists.
Qed.

Lemma groupByType_per_test_windows_witness :
  ∃ tc,
    TeamCityParser.convertToTestCase false Examples.line7
      (TeamCityParser.groupByType [Examples.started; Examples.finished])
    = Ok [tc]
    ∧ TestCase.type tc = Some PASSED
    ∧ TestCase.fault tc = None.
Proof.
  apply (proj2 (proj2 (proj2 groupByType_per_test_windows))
           false Examples.line7 Examples.started Examples.finished
           "php_qn://t.php::/T::testA" (Js.Int 7)).
  - by vm_compute.
  - by vm_compute.
  - by vm_compute.
  - reflexivity.
Defined.




(** C2, as the code has it: the fault's details are the details whose file
    is not the file of the start event's location hint, in order; the first
    detail, which gives the test case its file, is among them unless its
    file is that of the location hint. *)
Theorem convertGroup_fault_details (windows : bool)
    (lineNumber : option string → string → Result Js.number)
    (start error finish : TeamCityParser.Event)
    (rest : list TeamCityParser.Event) (hint : string)
    (details : list Detail) :
  TeamCityParser.get "locationHint" start = Some hint →
  TeamCityParser.typeOf error ≠ Some PASSED →
  TeamCityParser.convertToDetail windows
    (TeamCityParser.get "details" error) = Ok details →
  ∃ tc fault,
    TeamCityParser.convertGroup windows lineNumber
      (start :: error :: finish :: rest) = Ok (Ok tc)
    ∧ TestCase.fault tc = Some fault
    ∧ Fault.message fault = TeamCityParser.get "message" error
    ∧ Fault.details fault
      = filter
          (λ detail,
             Some (Detail.file detail)
             ≠ TeamCityParser.locationHintData windows hint !! 0%nat)
          details
    ∧ (∀ detail more,
         details = detail :: more →
         TestCase.file tc = Some (Detail.file detail)
         ∧ (Some (Detail.file detail)
            ≠ TeamCityParser.locationHintData windows hint !! 0%nat →
            detail ∈ Fault.details fault)).
Proof.
  intros Hhint Htype Hd. eexists _, _.
  split; [by apply (convertGroup_fault _ _ _ _ _ _ hint details)|].
  simpl. repeat (split; [done|]).
  intros detail more ->. split; [done|]. intros Hne.
  rewrite filter_cons_True by done. left.
Qed.

Lemma convertGroup_fault_details_witness :
  ∃ tc fault,
    TeamCityParser.convertGroup false Examples.line7
      [Examples.started; Examples.failedWithDetails; Examples.finished]
    = Ok (Ok tc)
    ∧ TestCase.fault tc = Some fault
    ∧ Fault.details fault
      = [Detail.mk "a.php" (Js.Int 5); Detail.mk "b.php" (Js.Int 9)].
Proof.
  destruct (convertGroup_fault_details false Examples.line7
              Examples.started Examples.failedWithDetails Examples.finished
              [] "php_qn://t.php::/T::testA"
              [Detail.mk "a.php" (Js.Int 5); Detail.mk "b.php" (Js.Int 9)])
    as (tc & fault & Htc & Hfault & _ & Hdetails & _).
  - by vm_compute.
  - by vm_compute.
  - by vm_compute.
  - exists tc, fault. split; [done|]. split; [done|].
    rewrite Hdetails. by vm_compute.
Defined.

(** C2, as stated, fails: the first detail gives the test case the file
    [a.php], and the fault's details still hold the detail of that file. *)
Lemma override_file_stays_in_details :
  ∃ tc fault,
    TeamCityParser.convertToTestCase false Examples.line7
      [[Examples.started; Examples.failedWithDetails; Examples.finished]]
    = Ok [tc]
    ∧ TestCase.file tc = Some "a.php"
    ∧ TestCase.fault tc = Some fault
    ∧ Detail.mk "a.php" (Js.Int 5) ∈ Fault.details fault.
Proof.
  eexists _, _. split; [by vm_compute|]. split; [done|]. split; [done|].
  simpl. left.
Qed.

(** C7, as the code has it: when the middle event of a group is not a passed
    one and its [details] member is missing or has a non-empty segment that
    does not match the pattern, the whole parse fails and returns no test
    cases.  The number of parts of the location hint is not checked: when
    the details are well-formed the group is converted whatever the hint
    splits into, the class and the name being its second and third part,
    undefined when the hint has fewer parts. *)
Theorem malformed_detail_fails (windows : bool)
    (lineNumber : option string → string → Result Js.number)
    (minimistString : string → list string) :
  (∀ content start error finish rest,
     start :: error :: finish :: rest
     ∈ TeamCityParser.groupByType
         (TeamCityParser.convertToArguments minimistString content) →
     TeamCityParser.typeOf error ≠ Some PASSED →
     (∀ text, TeamCityParser.get "details" error = Some text →
              ∃ segment, segment ∈ TeamCityParser.segments text
                         ∧ Js.matchFileLine segment = None) →
     failed
       (TeamCityParser.parse windows lineNumber minimistString content))
  ∧ (∀ start error finish rest hint details,
       TeamCityParser.get "locationHint" start = Some hint →
       TeamCityParser.typeOf error ≠ Some PASSED →
       TeamCityParser.convertToDetail windows
         (TeamCityParser.get "details" error) = Ok details →
       ∃ tc,
         TeamCityParser.convertGroup windows lineNumber
           (start :: error :: finish :: rest) = Ok (Ok tc)
         ∧ TestCase.class tc
           = TeamCityParser.locationHintData windows hint !! 1%nat
         ∧ TestCase.name tc
           = TeamCityParser.locationHintData windows hint !! 2%nat).
Proof.
  split.
  - intros content start error finish rest Hin Htype Hbad.
    unfold TeamCityParser.parse, TeamCityParser.parseString.
    eapply convertToTestCase_failed; [exact Hin|].
    apply convertGroup_failed; [done|]. by apply convertToDetail_failed.
  - intros start error finish rest hint details Hhint Htype Hd. eexists.
    split; [by apply (convertGroup_fault _ _ _ _ _ _ hint details)|]. done.
Qed.

Lemma malformed_detail_fails_witness :
  failed
    (TeamCityParser.parse false Examples.line7 Examples.argv
       ("##teamcity[testStarted name='testA' "
        +:+ "locationHint='php_qn://t.php::\T::testA']" +:+ Js.lf
        +:+ "##teamcity[testFailed name='testA' message='Failed' "
        +:+ "details='a.php:5|n#1{main}']" +:+ Js.lf
        +:+ "##teamcity[testFinished name='testA' duration='0']" +:+ Js.lf)).
Proof.
  eapply (proj1 (malformed_detail_fails false Examples.line7 Examples.argv)).
  - vm_compute. left.
  - by vm_compute.
  - intros text Htext. vm_compute in Htext. injection Htext as <-.
    exists "#1{main}". split; [|reflexivity].
    replace (TeamCityParser.segments "a.php:5|n#1{main}")
      with ["a.php:5"; "#1{main}"] by (by vm_compute).
    right. left.
Defined.

(** C7, as stated, fails: a location hint with a single part raises no
    error; the test case is returned with an undefined class and name. *)
Lemma one_part_location_hint_is_accepted :
  length (TeamCityParser.locationHintData false "php_qn://t.php") = 1%nat
  ∧ (∃ tc,
       TeamCityParser.convertToTestCase false Examples.line7
         [[Examples.startedBare; Examples.failedWithDetails;
           Examples.finished]]
       = Ok [tc]
       ∧ TestCase.class tc = None ∧ TestCase.name tc = None)
  ∧ ∃ tc,
      TeamCityParser.parse false Examples.line7 Examples.argv
        Examples.bareOutput = Ok [tc]
      ∧ TestCase.class tc = None ∧ TestCase.name tc = None.
Proof.
  split; [by vm_compute|]. split; eexists; by vm_compute.
Qed.

(** * Further properties *)

(** Membership in a list that is written out. *)
Ltac in_list :=
  repeat first [apply list_elem_of_here | apply list_elem_of_further].


(** ** More on strings *)

Lemma length_app_s (s t : string) :
  String.length (s +:+ t) = (String.length s + String.length t)%nat.
Proof. induction s as [|c s IH]; [done|]. rewrite app_String. simpl. lia. Qed.

Lemma rev_app_spec (s t : string) : String.rev_app s t = String.rev s +:+ t.
Proof.
  revert t. induction s as [|c s IH]; intros t; [done|].
  unfold String.rev. simpl. rewrite (IH (String c t)), (IH (String c "")).
  by rewrite app_assoc_s.
Qed.

Lemma rev_String (c : ascii) (s : string) :
  String.rev (String c s) = String.rev s +:+ String c "".
Proof. unfold String.rev at 1. simpl. apply rev_app_spec. Qed.

Lemma rev_app_distr_s (s t : string) :
  String.rev (s +:+ t) = String.rev t +:+ String.rev s.
Proof.
  induction s as [|c s IH].
  - by rewrite app_empty_l, app_empty_r.
  - by rewrite app_String, !rev_String, IH, app_assoc_s.
Qed.

Lemma rev_involutive_s (s : string) : String.rev (String.rev s) = s.
Proof.
  induction s as [|c s IH]; [done|].
  by rewrite rev_String, rev_app_distr_s, IH.
Qed.

Lemma length_rev_s (s : string) : String.length (String.rev s) = String.length s.
Proof.
  induction s as [|c s IH]; [done|].
  rewrite rev_String, length_app_s, IH. simpl. lia.
Qed.

Lemma noneIs_app (P : ascii → bool) (s t : string) :
  noneIs P (s +:+ t) = noneIs P s && noneIs P t.
Proof.
  induction s as [|c s IH]; [done|]. rewrite app_String. simpl.
  by rewrite IH, andb_assoc.
Qed.

Lemma noneIs_rev (P : ascii → bool) (s : string) :
  noneIs P (String.rev s) = noneIs P s.
Proof.
  induction s as [|c s IH]; [done|].
  rewrite rev_String, noneIs_app, IH. simpl.
  by rewrite andb_true_r, andb_comm.
Qed.

Lemma trimStart_idem (s : string) :
  Js.trimStart (Js.trimStart s) = Js.trimStart s.
Proof.
  induction s as [|c s IH]; [done|]. simpl.
  destruct (Js.isWhiteSpace c) eqn:Hc; [done|]. simpl. by rewrite Hc.
Qed.

Lemma noneIs_trimStart (P : ascii → bool) (s : string) :
  noneIs P s = true → noneIs P (Js.trimStart s) = true.
Proof.
  induction s as [|c s IH]; [done|]. simpl. intros [Hc Hs]%andb_prop.
  destruct (Js.isWhiteSpace c); [by apply IH|]. simpl. by rewrite Hc, Hs.
Qed.

Lemma noneIs_trimEnd (P : ascii → bool) (s : string) :
  noneIs P s = true → noneIs P (Js.trimEnd s) = true.
Proof.
  intros H. unfold Js.trimEnd. rewrite noneIs_rev.
  apply noneIs_trimStart. by rewrite noneIs_rev.
Qed.

Lemma noneIs_trim (P : ascii → bool) (s : string) :
  noneIs P s = true → noneIs P (Js.trim s) = true.
Proof. intros H. by apply noneIs_trimEnd, noneIs_trimStart. Qed.

(** Text that starts with a code unit that is not white space still does
    after its end is trimmed. *)
Lemma trimStart_snoc (s : string) (c : ascii) :
  Js.isWhiteSpace c = false →
  ∃ r, Js.trimStart (s +:+ String c "") = r +:+ String c "".
Proof.
  intros Hc. induction s as [|d s [r IH]].
  - exists "". simpl. by rewrite Hc.
  - rewrite app_String. simpl. destruct (Js.isWhiteSpace d); [by exists r|].
    by exists (String d s).
Qed.

Lemma trimEnd_keeps_head (c : ascii) (s : string) :
  Js.isWhiteSpace c = false →
  ∃ r, Js.trimEnd (String c s) = String c r.
Proof.
  intros Hc. unfold Js.trimEnd. rewrite rev_String.
  destruct (trimStart_snoc (String.rev s) c Hc) as [r ->].
  exists (String.rev r). by rewrite rev_app_distr_s.
Qed.

Lemma trimEnd_idem (s : string) : Js.trimEnd (Js.trimEnd s) = Js.trimEnd s.
Proof. unfold Js.trimEnd. by rewrite rev_involutive_s, trimStart_idem. Qed.

Lemma trimStart_head (s : string) :
  Js.trimStart s = ""
  ∨ ∃ c r, Js.trimStart s = String c r ∧ Js.isWhiteSpace c = false.
Proof.
  induction s as [|c s IH]; [by left|]. simpl.
  destruct (Js.isWhiteSpace c) eqn:Hc; [done|]. right. eauto.
Qed.

(** [trim] leaves trimmed text as it is. *)
Lemma trim_idem (s : string) : Js.trim (Js.trim s) = Js.trim s.
Proof.
  unfold Js.trim.
  assert (Js.trimStart (Js.trimEnd (Js.trimStart s))
          = Js.trimEnd (Js.trimStart s)) as ->.
  { destruct (trimStart_head s) as [->|(c & r & -> & Hc)]; [done|].
    destruct (trimEnd_keeps_head c r Hc) as [r' ->]. simpl. by rewrite Hc. }
  apply trimEnd_idem.
Qed.

Lemma toLowerChar_idem (c : ascii) :
  Js.toLowerChar (Js.toLowerChar c) = Js.toLowerChar c.
Proof. by destruct c as [[] [] [] [] [] [] [] []]. Qed.

Lemma toLowerCase_idem (s : string) :
  Js.toLowerCase (Js.toLowerCase s) = Js.toLowerCase s.
Proof.
  induction s as [|c s IH]; [done|]. simpl.
  by rewrite toLowerChar_idem, IH.
Qed.

(** ** [ParserFactory] *)

(** X1: [create] returns a JUnit parser exactly for the names that
    lower-case to [junit] and a TeamCity parser exactly for those that
    lower-case to [teamcity]; apart from the two names inherited from
    [Object.prototype] every other name throws the wrong-parser error; the
    letter case of the name never matters. *)
Theorem create_by_lower_cased_name (name : string) :
  (ParserFactory.create name = ParserFactory.Created "JUnitParser"
   ↔ Js.toLowerCase name = "junit")
  ∧ (ParserFactory.create name = ParserFactory.Created "TeamCityParser"
     ↔ Js.toLowerCase name = "teamcity")
  ∧ (Js.toLowerCase name ≠ "junit" → Js.toLowerCase name ≠ "teamcity" →
     Js.toLowerCase name ≠ "constructor" →
     Js.toLowerCase name ≠ "__proto__" →
     ParserFactory.create name = ParserFactory.WrongParser)
  ∧ ParserFactory.create (Js.toLowerCase name) = ParserFactory.create name.
Proof.
  unfold ParserFactory.create. rewrite toLowerCase_idem.
  generalize (Js.toLowerCase name). intros n.
  unfold ParserFactory.map. simpl. rewrite !lookup_insert, lookup_empty.
  repeat split; repeat case_decide; subst; try done; try congruence.
Qed.

Lemma create_by_lower_cased_name_witness :
  ParserFactory.create "nunit" = ParserFactory.WrongParser
  ∧ ParserFactory.create "JUnit" = ParserFactory.Created "JUnitParser".
Proof.
  split.
  - by apply (proj1 (proj2 (proj2 (create_by_lower_cased_name "nunit")))).
  - by apply (proj1 (create_by_lower_cased_name "JUnit")).
Defined.

(** ** [Env] *)

Lemma mswinNotCe_true (s : string) :
  Env.mswinNotCe s = true
  ↔ ∃ a b, s = a +:+ "mswin" +:+ b ∧ Js.startsWith "ce" b = false.
Proof.
  induction s as [|c s IH].
  - split; [done|]. by intros ([|] & b & ? & _).
  - cbn [Env.mswinNotCe]. rewrite orb_true_iff, IH. split.
    + intros [H|(a & b & -> & Hb)].
      * destruct (Js.stripPrefix "mswin" (String c s)) as [b|] eqn:Hp; [|done].
        apply stripPrefix_Some in Hp. exists "", b.
        by rewrite negb_true_iff in H.
      * by exists (String c a), b.
    + intros ([|c' a] & b & Hs & Hb).
      * left. rewrite app_empty_l in Hs.
        apply stripPrefix_Some in Hs as ->. by rewrite Hb.
      * right. rewrite app_String in Hs. injection Hs as -> ->. eauto.
Qed.

(** X2: a platform counts as Windows exactly when, letter case ignored, it
    contains [win32], [mingw], [bccwin] or [cygwin], or an [mswin] that is
    not followed by [ce]; in particular the answer does not depend on the
    letter case of the platform name. *)
Theorem isWindows_ignores_case (platform : string) :
  (Env.isWindows platform = true
   ↔ containsIgnoringCase "win32" platform
     ∨ (∃ a m b, platform = a +:+ m +:+ b ∧ Js.toLowerCase m = "mswin"
                 ∧ Js.startsWith "ce" (Js.toLowerCase b) = false)
     ∨ containsIgnoringCase "mingw" platform
     ∨ containsIgnoringCase "bccwin" platform
     ∨ containsIgnoringCase "cygwin" platform)
  ∧ Env.isWindows (Js.toLowerCase platform) = Env.isWindows platform.
Proof.
  split; [|unfold Env.isWindows; by rewrite toLowerCase_idem].
  unfold Env.isWindows. rewrite !orb_true_iff, !includes_toLowerCase.
  rewrite mswinNotCe_true.
  assert ((∃ a b, Js.toLowerCase platform = a +:+ "mswin" +:+ b
                  ∧ Js.startsWith "ce" b = false)
          ↔ ∃ a m b, platform = a +:+ m +:+ b ∧ Js.toLowerCase m = "mswin"
                     ∧ Js.startsWith "ce" (Js.toLowerCase b) = false) as ->.
  { split.
    - intros (a' & b' & H & Hb).
      apply toLowerCase_app_inv in H as (a & mb & -> & _ & H).
      apply toLowerCase_app_inv in H as (m & b & -> & Hm & <-).
      by exists a, m, b.
    - intros (a & m & b & -> & Hm & Hb). rewrite !toLowerCase_app, Hm.
      by exists (Js.toLowerCase a), (Js.toLowerCase b). }
  tauto.
Qed.

Lemma splitAt_go_noneIs (P : ascii → bool) (cur s : string) :
  noneIs P (String.rev cur) = true →
  Forall (λ piece, noneIs P piece = true) (Js.splitAt_go P cur s).
Proof.
  revert cur. induction s as [|c s IH]; intros cur Hcur; simpl.
  - by constructor.
  - destruct (P c) eqn:Hc.
    + constructor; [done|]. by apply IH.
    + apply IH. rewrite rev_String, noneIs_app, Hcur. simpl. by rewrite Hc.
Qed.

Lemma splitAt_go_length (P : ascii → bool) (cur s : string) :
  length (Js.splitAt_go P cur s) = S (countIs P s).
Proof.
  revert cur. induction s as [|c s IH]; intros cur; simpl; [done|].
  destruct (P c); simpl; by rewrite IH.
Qed.

Lemma splitAt_go_app (P : ascii → bool) (cur piece rest : string) :
  noneIs P piece = true →
  Js.splitAt_go P cur (piece +:+ rest)
  = Js.splitAt_go P (String.rev piece +:+ cur) rest.
Proof.
  revert cur. induction piece as [|c piece IH]; intros cur H; [done|].
  simpl in H. apply andb_prop in H as [Hc%negb_true_iff H].
  rewrite app_String. simpl. rewrite Hc, (IH _ H).
  by rewrite rev_String, app_assoc_s.
Qed.

Lemma splitAt_joinWith (c : ascii) (pieces : list string) :
  pieces ≠ [] →
  Forall (λ piece, noneIs (λ x, bool_decide (x = c)) piece = true) pieces →
  Js.splitAt (λ x, bool_decide (x = c)) (joinWith c pieces) = pieces.
Proof.
  intros Hne Hall. unfold Js.splitAt.
  induction Hall as [|piece pieces Hp Hall IH]; [done|].
  destruct pieces as [|piece' pieces].
  - simpl. rewrite <- (app_empty_r piece) at 1.
    rewrite splitAt_go_app by done. simpl.
    by rewrite app_empty_r, rev_involutive_s.
  - cbn [joinWith]. rewrite splitAt_go_app by done. simpl.
    rewrite bool_decide_eq_true_2 by done.
    rewrite app_empty_r, rev_involutive_s. f_equal. by apply IH.
Qed.

Lemma dropFinal_noneIs (c : ascii) (piece : string) :
  noneIs (λ x, bool_decide (x = c)) piece = true →
  Env.dropFinal c piece = piece.
Proof.
  intros H. unfold Env.dropFinal. rewrite <- noneIs_rev in H.
  destruct (String.rev piece) as [|c' r]; [done|]. simpl in H.
  apply andb_prop in H as [Hc%negb_true_iff%bool_decide_eq_false _].
  by rewrite decide_False.
Qed.

(** X3: the paths that [Env] reads from a text are as many as its delimiters
    plus one (so the empty text gives one empty path); none contains the
    delimiter, and each is trimmed. *)
Theorem splitPaths_pieces (env : Env.t) (text : string) :
  length (Env.splitPaths env (inl text))
  = S (countIs (λ c, bool_decide (c = Env.delimiter env)) text)
  ∧ Forall
      (λ path,
         noneIs (λ c, bool_decide (c = Env.delimiter env)) path = true
         ∧ Js.trim path = path)
      (Env.splitPaths env (inl text)).
Proof.
  unfold Env.splitPaths. split.
  - rewrite length_fmap. apply splitAt_go_length.
  - apply Forall_fmap.
    eapply Forall_impl; [by apply (splitAt_go_noneIs _ "" text)|].
    intros piece Hp. simpl. rewrite (dropFinal_noneIs _ _ Hp).
    split; [by apply noneIs_trim | apply trim_idem].
Qed.

(** X4: a list of trimmed paths that do not contain the delimiter, joined
    with the delimiter, is read back as it was. *)
Theorem splitPaths_joinWith (env : Env.t) (pieces : list string) :
  pieces ≠ [] →
  Forall
    (λ path,
       noneIs (λ c, bool_decide (c = Env.delimiter env)) path = true
       ∧ Js.trim path = path)
    pieces →
  Env.splitPaths env (inl (joinWith (Env.delimiter env) pieces)) = pieces.
Proof.
  intros Hne Hall. unfold Env.splitPaths.
  rewrite splitAt_joinWith; [|done|by eapply Forall_impl; [exact Hall|intros ? []]].
  induction Hall as [|piece pieces' [Hp Ht] _ IH]; [done|].
  rewrite fmap_cons, (dropFinal_noneIs _ _ Hp), Ht. f_equal.
  destruct pieces'; [done|]. by apply IH.
Qed.

Lemma splitPaths_joinWith_witness :
  Env.splitPaths (Env.mk (inl "") "linux")
    (inl (joinWith ":" ["/usr/local/bin"; "/usr/bin"; "/bin"]))
  = ["/usr/local/bin"; "/usr/bin"; "/bin"].
Proof.
  apply (splitPaths_joinWith (Env.mk (inl "") "linux")
           ["/usr/local/bin"; "/usr/bin"; "/bin"]); [done|].
  repeat constructor.
Defined.

(** ** More on [JUnitParser] *)

Lemma mapM_app {A B} (f : A → Result B) (l1 l2 : list A) :
  mapM f (l1 ++ l2) = (ys1 ← mapM f l1; ys2 ← mapM f l2; Ok (ys1 ++ ys2)).
Proof.
  induction l1 as [|x l1 IH]; simpl.
  - by destruct (mapM f l2).
  - destruct (f x) as [y|]; [simpl|done]. rewrite IH.
    destruct (mapM f l1) as [ys1|]; [simpl|done]. by destruct (mapM f l2).
Qed.

Lemma mapM_concat {A B} (f : A → Result B) (ls : list (list A)) :
  mapM f (concat ls) = (yss ← mapM (mapM f) ls; Ok (concat yss)).
Proof.
  induction ls as [|l ls IH]; [done|]. simpl. rewrite mapM_app, IH.
  destruct (mapM f l) as [ys|]; [simpl|done].
  by destruct (mapM (mapM f) ls).
Qed.

Lemma mapM_fmap {A B C} (f : B → Result C) (g : A → B) (l : list A) :
  mapM f (g <$> l) = mapM (λ x, f (g x)) l.
Proof.
  induction l as [|x l IH]; [done|]. rewrite fmap_cons. cbn [mapM].
  by rewrite IH.
Qed.

Lemma mapM_ext_Forall {A B} (f g : A → Result B) (l : list A) :
  Forall (λ x, f x = g x) l → mapM f l = mapM g l.
Proof. induction 1 as [|x l Hx _ IH]; [done|]. simpl. by rewrite Hx, IH. Qed.

Section JUnit_more.
Import JUnitParser.

Lemma parseTestSuite_mapM (testSuitNode : TestSuiteNode) :
  parseTestSuite testSuitNode = mapM parseTestCase (leaves testSuitNode).
Proof.
  induction testSuitNode as [ts tc IH] using TestSuiteNode_nested_ind.
  simpl. destruct ts as [l|]; [|by destruct tc].
  specialize (IH l eq_refl).
  rewrite mapM_concat, mapM_fmap. by rewrite (mapM_ext_Forall _ _ _ IH).
Qed.

(** X5: [parseTestSuite] parses the [testcase] elements of the suites that
    have no nested suite, in document order: it returns one test case for
    each of them, in that order, and fails when one of them fails. *)
Theorem parseTestSuite_document_order (testSuitNode : TestSuiteNode) :
  parseTestSuite testSuitNode = mapM parseTestCase (leaves testSuitNode)
  ∧ (∀ tcs,
       parseTestSuite testSuitNode = Ok tcs →
       length tcs = length (leaves testSuitNode)
       ∧ Forall2 (λ testCaseNode tc, parseTestCase testCaseNode = Ok tc)
           (leaves testSuitNode) tcs)
  ∧ (∀ testCaseNode,
       testCaseNode ∈ leaves testSuitNode →
       failed (parseTestCase testCaseNode) →
       failed (parseTestSuite testSuitNode)).
Proof.
  rewrite parseTestSuite_mapM. split; [done|]. split.
  - intros tcs H%mapM_Ok. split; [|done]. symmetry. by eapply Forall2_length.
  - intros testCaseNode. apply mapM_failed.
Qed.

Lemma parseTestSuite_document_order_witness :
  ∃ tcs,
    parseTestSuite Examples.nestedSuites = Ok tcs ∧ length tcs = 3%nat.
Proof.
  eexists. split; [by vm_compute|].
  match goal with
  | |- length ?tcs = _ =>
      destruct (proj1 (proj2
                  (parseTestSuite_document_order Examples.nestedSuites)) tcs)
        as [Hlen _]; [by vm_compute|]
  end.
  rewrite Hlen. reflexivity.
Defined.

Lemma getFaultNode_failed (testCaseNode : TestCaseNode) :
  failed (getFaultNode testCaseNode)
  ↔ ∃ l, error testCaseNode = Some l
         ∧ (e ← l !! 0%nat; a ← attr e; a !! "type") = None.
Proof.
  unfold getFaultNode. destruct (error testCaseNode) as [l|].
  - assert (failed (t ← parseErrorType (l !! 0%nat);
                    Ok (Some (assignType t (l !! 0%nat))))
            ↔ (e ← l !! 0%nat; a ← attr e; a !! "type") = None) as ->.
    { unfold parseErrorType. destruct (l !! 0%nat) as [e|]; simpl; [|done].
      destruct (attr e) as [a|]; simpl; [|done].
      destruct (a !! "type") as [declared|]; simpl; [|done].
      repeat case_match; simpl; by split. }
    split; [eauto | by intros (? & [= <-] & ?)].
  - split; [|by intros (? & [=] & _)].
    destruct (warning testCaseNode); [done|].
    destruct (failure testCaseNode); [done|].
    by case_bool_decide.
Qed.

(** X6: [parseTestCase] throws exactly when the [testcase] element has no
    attribute at all, or its first [error] child has no [type] attribute, or
    the element chosen as fault node has no character data or no
    attribute; nothing in the text of the message can make it throw. *)
Theorem parseTestCase_failed (testCaseNode : TestCaseNode) :
  (failed (parseTestCase testCaseNode)
   ↔ attrs testCaseNode = None
     ∨ failed (getFaultNode testCaseNode)
     ∨ ∃ faultNode,
         getFaultNode testCaseNode = Ok (Some faultNode)
         ∧ (ftext faultNode = None ∨ fattr faultNode = None))
  ∧ (failed (getFaultNode testCaseNode)
     ↔ ∃ l, error testCaseNode = Some l
            ∧ (e ← l !! 0%nat; a ← attr e; a !! "type") = None).
Proof.
  split; [|apply getFaultNode_failed].
  unfold parseTestCase. destruct (attrs testCaseNode) as [a|]; simpl;
    [|split; [by left | done]].
  destruct (getFaultNode testCaseNode) as [[faultNode|]|] eqn:Hfn; simpl;
    [| split; [done | by intros [[=]|[[]|(fn & [=] & _)]]]
     | split; [by right; left | done]].
  unfold parseMessage, crlf2lf.
  destruct (ftext faultNode) as [message|] eqn:Hm; simpl;
    [|split; [intros _; right; right; exists faultNode; auto | done]].
  destruct (parseDetails_total (Js.replaceCrLf message)) as [details ->].
  simpl. destruct (currentFile details _) as [file line].
  destruct (fattr faultNode) eqn:Hfa; simpl.
  - split; [done|].
    intros [[=]|[[]|(fn & [= <-] & [Ht|Ha'])]]; congruence.
  - split; [intros _; right; right; exists faultNode; auto | done].
Qed.

(** X7: the fault leaves the name, class, class name, file and time of a
    test case as the attributes give them; in particular the file is always
    the nominal one, a detail can only change the line. *)
Theorem parseTestCase_nominal_fields (testCaseNode : TestCaseNode)
    (a : gmap string string) (tc : TestCase) :
  attrs testCaseNode = Some a →
  parseTestCase testCaseNode = Ok tc →
  TestCase.name tc = truthy (a !! "name")
  ∧ TestCase.class tc = a !! "class"
  ∧ TestCase.classname tc = truthy (a !! "classname")
  ∧ TestCase.file tc = a !! "file"
  ∧ TestCase.time tc
    = Js.parseFloat (Some (default "0" (truthy (a !! "time")))).
Proof.
  intros Ha. unfold parseTestCase. rewrite Ha. simpl.
  destruct (getFaultNode testCaseNode) as [[faultNode|]|]; simpl;
    [|by intros [= <-]|done].
  destruct (parseMessage faultNode) as [message|]; [simpl|done].
  destruct (parseDetails message) as [details|]; [simpl|done].
  match goal with
  | |- context [currentFile details ?t] =>
      pose proof (currentFile_file details t) as Hfile;
      destruct (currentFile details t) as [file line]
  end.
  destruct (fattr faultNode); [simpl|done]. intros [= <-]. simpl.
  simpl in Hfile. by rewrite Hfile.
Qed.

Lemma parseTestCase_nominal_fields_witness :
  ∃ tc,
    parseTestCase Examples.failedInOwnFile = Ok tc
    ∧ TestCase.file tc = Some "C:/tests/PHPUnitTest.php"
    ∧ TestCase.name tc = Some "testFailed".
Proof.
  eexists. split; [by vm_compute|].
  destruct (parseTestCase_nominal_fields Examples.failedInOwnFile _ _
              eq_refl eq_refl) as (Hname & _ & _ & Hfile & _).
  split; [exact Hfile | exact Hname].
Defined.
End JUnit_more.

Lemma digitValue_nonneg (c : ascii) :
  Js.isDigit c = true → 0 ≤ Js.digitValue c.
Proof.
  destruct c as [[] [] [] [] [] [] [] []]; intros H; try discriminate H;
    by vm_compute.
Qed.

Lemma digitsValue_go_nonneg (acc : Z) (d : string) :
  0 ≤ acc → Js.allDigits d = true → 0 ≤ Js.digitsValue_go acc d.
Proof.
  revert acc. induction d as [|c d IH]; intros acc Hacc; [done|]. simpl.
  intros [Hc Hd]%andb_prop. apply IH; [|done].
  pose proof (digitValue_nonneg c Hc). lia.
Qed.

Section JUnit_details.
Import JUnitParser.



(** X9: [parseDetails] never throws; it returns at most one detail for each
    line of the message, and the line of every detail is a number that is
    at least -1. *)
Theorem parseDetails_lines (message : string) :
  ∃ details,
    parseDetails message = Ok details
    ∧ (length details ≤ length (Js.split Js.lf message))%nat
    ∧ Forall (λ detail, ∃ z, Detail.line detail = Js.Int z ∧ -1 ≤ z) details.
Proof.
  destruct (parseDetails_total message) as [details Hd].
  exists details. split; [done|]. unfold parseDetails in Hd.
  apply mapM_Ok in Hd. split.
  - rewrite <- (Forall2_length _ _ _ Hd).
    etrans; [apply length_filter|]. by rewrite length_fmap.
  - induction Hd as [|path detail l details Hpath _ IH]; constructor; [|done].
    destruct (Js.matchFileLine path) as [[file digits]|] eqn:Hm; [|done].
    simpl in Hpath. injection Hpath as <-.
    destruct (matchFileLine_digits _ _ _ Hm) as [Hne Hdigits].
    rewrite (parseInt_digits _ Hne Hdigits). simpl. eexists. split; [done|].
    pose proof (digitsValue_go_nonneg 0 digits (Z.le_refl 0) Hdigits).
    unfold Js.digitsValue. lia.
Qed.




(** X11: the message of a JUnit fault is trimmed text; when the fault's text
    has no location line it is that text with its line breaks normalised,
    trimmed. *)
Theorem parseTestCase_message (testCaseNode : TestCaseNode)
    (faultNode : FaultNode) (text : string) (tc : TestCase) :
  getFaultNode testCaseNode = Ok (Some faultNode) →
  ftext faultNode = Some text →
  parseTestCase testCaseNode = Ok tc →
  ∃ fault message,
    TestCase.fault tc = Some fault
    ∧ Fault.message fault = Some message
    ∧ Js.trim message = message
    ∧ (parseDetails (Js.replaceCrLf text) = Ok [] →
       message = Js.trim (Js.replaceCrLf text)).
Proof.
  intros Hfn Ht. unfold parseTestCase.
  destruct (attrs testCaseNode) as [a|]; [simpl|done]. rewrite Hfn. simpl.
  unfold parseMessage, crlf2lf. rewrite Ht. simpl.
  destruct (parseDetails (Js.replaceCrLf text)) as [details|]; [simpl|done].
  destruct (currentFile details _) as [file line].
  destruct (fattr faultNode); [simpl|done]. intros [= <-]. simpl.
  eexists _, _. split; [done|]. split; [done|]. split; [apply trim_idem|].
  by intros [= ->].
Qed.

Lemma parseTestCase_message_witness :
  ∃ tc fault,
    parseTestCase Examples.skippedByError = Ok tc
    ∧ TestCase.fault tc = Some fault
    ∧ Fault.message fault = Some "Skipped Test".
Proof.
  eexists.
  destruct (parseTestCase_message Examples.skippedByError _ "Skipped Test" _
              eq_refl eq_refl eq_refl)
    as (fault & message & Hfault & Hmessage & _ & Hplain).
  exists fault. split; [done|]. split; [done|].
  rewrite Hmessage, Hplain; by vm_compute.
Defined.
End JUnit_details.

(** ** More on [TeamCityParser] *)

Section TeamCity_more.
Import TeamCityParser.
Context (windows : bool).
Context (lineNumber : option string → string → Result Js.number).
Context (minimistString : string → list string).

Lemma filter_none {A} (P : A → Prop) `{!∀ x, Decision (P x)} (l : list A) :
  Forall (λ x, ¬ P x) l → filter P l = [].
Proof.
  induction 1 as [|x l Hx _ IH]; [done|]. by rewrite filter_cons_False.
Qed.

(** X12: [convertToArguments] yields at most one event for each line that
    starts with the marker and no bookkeeping event; a text without such a
    line, the empty text included, parses to the empty list whatever the
    collaborators do. *)
Theorem parse_marker_lines (content : string) :
  (length (convertToArguments minimistString content)
   ≤ length (filter (λ line, Js.startsWith "##teamcity" line = true)
               (Js.splitAt Js.isLineTerminator content)))%nat
  ∧ Forall
      (λ item : Event,
         get "type" item ≠ Some "testCount"
         ∧ get "type" item ≠ Some "testSuiteStarted"
         ∧ get "type" item ≠ Some "testSuiteFinished")
      (convertToArguments minimistString content)
  ∧ (Forall (λ line, Js.startsWith "##teamcity" line = false)
       (Js.splitAt Js.isLineTerminator content) →
     parse windows lineNumber minimistString content = Ok []).
Proof.
  unfold convertToArguments. split; [|split].
  - etrans; [apply length_filter|]. by rewrite length_fmap.
  - apply Forall_forall. intros item [Hitem _]%list_elem_of_filter.
    repeat split; intros Heq; apply Hitem; rewrite Heq; in_list.
  - intros Hnone. unfold parse, parseString, convertToArguments.
    rewrite (filter_none (λ line, Js.startsWith "##teamcity" line = true)).
    + done.
    + eapply Forall_impl; [exact Hnone|]. intros line ->. done.
Qed.

(** X13: when the conversion succeeds it returns one test case for each
    group, in the order of the groups. *)
Theorem convertToTestCase_one_per_group (groups : list (list Event))
    (tcs : list TestCase) :
  convertToTestCase windows lineNumber groups = Ok tcs →
  length tcs = length groups
  ∧ Forall2 (λ group tc, convertGroup windows lineNumber group = Ok (Ok tc))
      groups tcs.
Proof.
  unfold convertToTestCase, Promise_all.
  intros (promises & Hp%mapM_Ok & Hall%mapM_Ok)%bind_Ok.
  assert (Forall2 (λ group tc,
            convertGroup windows lineNumber group = Ok (Ok tc)) groups tcs)
    as H.
  { revert tcs Hall. induction Hp as [|g p groups promises Hg _ IH];
      intros tcs Hall; inversion Hall as [|?? ? tcs' Hptc Hrest]; subst;
      constructor.
    - simpl in Hptc. by rewrite Hg, Hptc.
    - by apply IH. }
  split; [|done]. symmetry. by eapply Forall2_length.
Qed.

Lemma perTestWindows_double (current before after : list Event)
    (first second : Event) :
  isFinished first → isFinished second →
  [second]
  ∈ perTestWindows current (before ++ first :: second :: after).
Proof.
  intros H1 H2. revert current.
  induction before as [|item before IH]; intros current.
  - simpl. rewrite !decide_True by done. simpl. right. left.
  - simpl. case_decide; [right|]; apply IH.
Qed.

Lemma convertGroup_single (item : Event) :
  failed (convertGroup windows lineNumber [item]).
Proof.
  unfold convertGroup. simpl. by destruct (get "locationHint" item).
Qed.

(** X14: a group of a single event cannot be converted, so a stream in
    which a [testFinished] event directly follows another one fails as a
    whole. *)
Theorem consecutive_testFinished_fails (content : string)
    (before after : list Event) (first second : Event) :
  convertToArguments minimistString content
  = before ++ first :: second :: after →
  isFinished first → isFinished second →
  failed (parse windows lineNumber minimistString content).
Proof.
  intros Hitems H1 H2. unfold parse, parseString.
  rewrite Hitems, groupByType_perTestWindows.
  eapply convertToTestCase_failed;
    [by apply perTestWindows_double | apply convertGroup_single].
Qed.

(** X15: for a group of two events the line is asked from the line locator
    for the text [function] and the name, in the file of the location hint;
    when the locator rejects, the whole conversion fails. *)
Theorem passed_needs_line_lookup (groups : list (list Event))
    (start finish : Event) (hint : string) :
  [start; finish] ∈ groups →
  get "locationHint" start = Some hint →
  failed
    (lineNumber (locationHintData windows hint !! 0%nat)
       ("function "
        +:+ default "undefined" (locationHintData windows hint !! 2%nat))) →
  failed (convertToTestCase windows lineNumber groups).
Proof.
  intros Hin Hhint Hline. unfold convertToTestCase.
  destruct (mapM (convertGroup windows lineNumber) groups) as [promises|]
    eqn:Hp; [simpl|done].
  apply mapM_Ok in Hp.
  apply list_elem_of_lookup in Hin as [i Hi].
  destruct (Forall2_lookup_l _ _ _ _ _ Hp Hi) as (p & Hpi & Hconv).
  rewrite (convertGroup_passed _ _ _ _ hint Hhint) in Hconv.
  injection Hconv as <-. unfold Promise_all.
  eapply mapM_failed; [by eapply list_elem_of_lookup_2|].
  simpl. by destruct (lineNumber _ _).
Qed.

End TeamCity_more.

Lemma parse_marker_lines_witness :
  TeamCityParser.parse false Examples.lineOf Examples.argv
    ("PHPUnit 6.4.1 by Sebastian Bergmann and contributors." +:+ Js.lf
     +:+ "OK (0 tests, 0 assertions)" +:+ Js.lf) = Ok [].
Proof.
  apply (proj2 (proj2 (parse_marker_lines false Examples.lineOf Examples.argv
           ("PHPUnit 6.4.1 by Sebastian Bergmann and contributors." +:+ Js.lf
            +:+ "OK (0 tests, 0 assertions)" +:+ Js.lf)))).
  replace (Js.splitAt Js.isLineTerminator _)
    with ["PHPUnit 6.4.1 by Sebastian Bergmann and contributors.";
          "OK (0 tests, 0 assertions)"; ""] by (by vm_compute).
  repeat constructor.
Defined.

Lemma consecutive_testFinished_fails_witness :
  failed
    (TeamCityParser.parse false Examples.line7 Examples.argv
       ("##teamcity[testStarted name='testA' "
        +:+ "locationHint='php_qn://t.php::\T::testA']" +:+ Js.lf
        +:+ "##teamcity[testFinished name='testA' duration='0']" +:+ Js.lf
        +:+ "##teamcity[testFinished name='testA' duration='0']" +:+ Js.lf)).
Proof.
  eapply (consecutive_testFinished_fails false Examples.line7 Examples.argv _
            [Examples.event
               [("type", "testStarted"); ("name", "testA");
                ("locationHint", "php_qn://t.php::/T::testA")]]
            []
            (Examples.event
               [("type", "testFinished"); ("name", "testA");
                ("duration", "0")])
            (Examples.event
               [("type", "testFinished"); ("name", "testA");
                ("duration", "0")])).
  - by vm_compute.
  - by vm_compute.
  - by vm_compute.
Defined.

Lemma passed_needs_line_lookup_witness :
  failed
    (TeamCityParser.convertToTestCase true Examples.lineOf
       [[Examples.started; Examples.finished]]).
Proof.
  apply (passed_needs_line_lookup true Examples.lineOf
           [[Examples.started; Examples.finished]]
           Examples.started Examples.finished "php_qn://t.php::/T::testA").
  - left.
  - by vm_compute.
  - by vm_compute.
Defined.

Lemma replaceChar_back (path : string) :
  noneIs (λ c, bool_decide (c = "/"%char)) path = true →
  Js.replaceChar "/" "\" (Js.replaceChar "\" "/" path) = path.
Proof.
  induction path as [|c path IH]; [done|]. simpl.
  intros [Hc%negb_true_iff%bool_decide_eq_false Hp]%andb_prop.
  rewrite (IH Hp). f_equal. repeat case_decide; congruence.
Qed.

Lemma replaceChar_none (c d : ascii) (path : string) :
  c ≠ d → noneIs (λ x, bool_decide (x = c)) (Js.replaceChar c d path) = true.
Proof.
  intros Hcd. induction path as [|x path IH]; [done|]. simpl. rewrite IH.
  case_decide; rewrite bool_decide_eq_false_2; done.
Qed.

(** X16: on Windows a path rewritten by [renamePath] has no slash left, and
    a path without slash whose backslashes [convertToArguments] turned into
    slashes is given back as it was; elsewhere [renamePath] changes
    nothing. *)
Theorem renamePath_round_trip (path : string) :
  noneIs (λ c, bool_decide (c = "/"%char))
    (TeamCityParser.renamePath true path) = true
  ∧ (noneIs (λ c, bool_decide (c = "/"%char)) path = true →
     TeamCityParser.renamePath true (Js.replaceChar "\" "/" path) = path)
  ∧ TeamCityParser.renamePath false path = path.
Proof.
  unfold TeamCityParser.renamePath. split; [|split; [|done]].
  - by apply replaceChar_none.
  - apply replaceChar_back.
Qed.

Lemma renamePath_round_trip_witness :
  TeamCityParser.renamePath true
    (Js.replaceChar "\" "/" "C:\tests\PHPUnitTest.php")
  = "C:\tests\PHPUnitTest.php".
Proof.
  by apply (proj1 (proj2 (renamePath_round_trip "C:\tests\PHPUnitTest.php"))).
Defined.

Lemma convertToTestCase_one_per_group_witness :
  ∃ tcs,
    TeamCityParser.convertToTestCase false Examples.line7
      [[Examples.started; Examples.failedWithDetails; Examples.finished];
       [Examples.started; Examples.finished]] = Ok tcs
    ∧ length tcs = 2%nat.
Proof.
  eexists. split; [by vm_compute|].
  match goal with
  | |- length ?tcs = _ =>
      destruct (convertToTestCase_one_per_group false Examples.line7
                  [[Examples.started; Examples.failedWithDetails;
                    Examples.finished];
                   [Examples.started; Examples.finished]] tcs)
        as [Hlen _]; [by vm_compute|]
  end.
  exact Hlen.
Defined.

(** *** The parts of a location hint *)

Lemma startsWith_colons (c : ascii) (a tail : string) :
  Js.startsWith "::" (String c (a +:+ ":")) = false →
  Js.startsWith "::" (String c (a +:+ ":" +:+ tail)) = false.
Proof.
  unfold Js.startsWith. rewrite !bool_decide_eq_false.
  intros H [r Hr]. apply H. clear H.
  destruct a as [|d a].
  - rewrite app_empty_l in *. simpl in *.
    case_decide; [|done]. by eexists.
  - rewrite !app_String in *. simpl in *.
    case_decide; [|done]. case_decide; [|done]. by eexists.
Qed.

Lemma includes_false_cons (needle : string) (c : ascii) (s : string) :
  Js.includes needle (String c s) = false →
  Js.startsWith needle (String c s) = false ∧ Js.includes needle s = false.
Proof.
  cbn [Js.includes]. by destruct (Js.startsWith needle (String c s)).
Qed.

Lemma split_go_colons (cur a rest : string) :
  Js.includes "::" (a +:+ ":") = false →
  Js.split_go "::" 0 cur (a +:+ "::" +:+ rest)
  = (String.rev cur +:+ a) :: Js.split_go "::" 0 "" rest.
Proof.
  revert cur. induction a as [|c a IH]; intros cur Ha.
  - by rewrite app_empty_l, app_empty_r.
  - rewrite app_String in Ha.
    apply includes_false_cons in Ha as [Hc Ha].
    apply (startsWith_colons c a (":" +:+ rest)) in Hc.
    rewrite app_String. cbn [Js.split_go].
    change (a +:+ "::" +:+ rest) with (a +:+ ":" +:+ ":" +:+ rest).
    rewrite Hc.
    change (a +:+ ":" +:+ ":" +:+ rest) with (a +:+ "::" +:+ rest).
    rewrite (IH _ Ha). by rewrite rev_String, app_assoc_s.
Qed.

Lemma split_go_none (sep cur s : string) :
  Js.includes sep s = false →
  Js.split_go sep 0 cur s = [String.rev cur +:+ s].
Proof.
  revert cur. induction s as [|c s IH]; intros cur Hs.
  - by rewrite app_empty_r.
  - apply includes_false_cons in Hs as [Hc Hs]. cbn [Js.split_go].
    rewrite Hc, (IH _ Hs). by rewrite rev_String, app_assoc_s.
Qed.

Lemma replace_colons (a rest : string) :
  Js.includes "::" (a +:+ ":") = false →
  Js.replace "::/" "::" (a +:+ "::/" +:+ rest) = a +:+ "::" +:+ rest.
Proof.
  induction a as [|c a IH]; intros Ha; [done|].
  rewrite app_String in Ha. apply includes_false_cons in Ha as [Hc Ha].
  apply (startsWith_colons c a (":/" +:+ rest)) in Hc.
  rewrite !(app_String c a). cbn [Js.replace].
  destruct (Js.stripPrefix "::/" (String c (a +:+ "::/" +:+ rest)))
    as [r|] eqn:Hr.
  - apply stripPrefix_Some in Hr.
    assert (Js.startsWith "::" (String c (a +:+ ":" +:+ ":/" +:+ rest))
            = true) as Hc'.
    { apply startsWith_true. exists ("/" +:+ r). exact Hr. }
    congruence.
  - by rewrite (IH Ha).
Qed.

(** X17: a location hint made of the scheme, a file, a class after [::/]
    and a method after [::], none of which holds a double colon, is split
    into exactly these three parts, the file path-rewritten; the test case of
    a passed test then carries them. *)
Theorem locationHintData_parts (windows : bool)
    (lineNumber : option string → string → Result Js.number)
    (file class name : string) :
  let hint := "php_qn://" +:+ file +:+ "::/" +:+ class +:+ "::" +:+ name in
  Js.trim hint = hint →
  Js.includes "::" (file +:+ ":") = false →
  Js.includes "::" (class +:+ ":") = false →
  Js.includes "::" name = false →
  TeamCityParser.locationHintData windows hint
  = [TeamCityParser.renamePath windows file; class; name]
  ∧ (∀ start finish line,
       TeamCityParser.get "locationHint" start = Some hint →
       lineNumber (Some (TeamCityParser.renamePath windows file))
         ("function " +:+ name) = Ok line →
       ∃ tc,
         TeamCityParser.convertGroup windows lineNumber [start; finish]
         = Ok (Ok tc)
         ∧ TestCase.file tc = Some (TeamCityParser.renamePath windows file)
         ∧ TestCase.class tc = Some class
         ∧ TestCase.name tc = Some name
         ∧ TestCase.line tc = line).
Proof.
  intros hint Htrim Hfile Hclass Hname.
  assert (TeamCityParser.locationHintData windows hint
          = [TeamCityParser.renamePath windows file; class; name]) as Hdata.
  { unfold TeamCityParser.locationHintData, TeamCityParser.tap.
    rewrite Htrim. unfold TeamCityParser.stripScheme, hint.
    assert (Js.stripPrefix "php_qn://"
              ("php_qn://" +:+ file +:+ "::/" +:+ class +:+ "::" +:+ name)
            = Some (file +:+ "::/" +:+ class +:+ "::" +:+ name)) as ->
      by (by apply stripPrefix_Some).
    simpl default. rewrite (replace_colons _ _ Hfile). unfold Js.split.
    rewrite (split_go_colons _ _ _ Hfile), (split_go_colons _ _ _ Hclass).
    by rewrite (split_go_none _ _ _ Hname). }
  split; [done|].
  intros start finish line Hhint Hline.
  rewrite (convertGroup_passed _ _ _ _ hint Hhint), Hdata. simpl.
  rewrite Hline. simpl. by eexists.
Qed.

Lemma locationHintData_parts_witness :
  TeamCityParser.locationHintData true
    "php_qn://C:/tests/T.php::/App/T::testPassed"
  = ["C:\tests\T.php"; "App/T"; "testPassed"].
Proof.
  by apply (proj1 (locationHintData_parts true Examples.line7
                     "C:/tests/T.php" "App/T" "testPassed"
                     eq_refl eq_refl eq_refl eq_refl)).
Defined.

(** ** More on [Filesystem] *)

Lemma length_bind_const {A B} (f : A → list B) (l : list A) (k : nat) :
  (∀ x, length (f x) = k) → length (l ≫= f) = (length l * k)%nat.
Proof.
  intros Hf. induction l as [|x l IH]; [done|].
  rewrite bind_cons, length_app, IH, Hf. simpl. lia.
Qed.

Section Filesystem_find.
Import Filesystem.
Context (env : Env.t).
Context (join : string → string → string).
Context (exists_ : string → bool).
Context (dirname : string → string).

Lemma firstExisting_Some (files : list string) (file : string) :
  firstExisting exists_ files = Some file
  ↔ ∃ before after,
      files = before ++ file :: after
      ∧ Forall (λ f, exists_ f = false) before
      ∧ exists_ file = true.
Proof.
  induction files as [|f files IH]; simpl.
  - split; [done|]. by intros ([|] & ? & ? & _).
  - destruct (exists_ f) eqn:Hf.
    + split.
      * intros [= <-]. by exists [], files.
      * intros ([|f' before] & after & Heq & Hb & Hfile).
        -- by injection Heq as <- _.
        -- injection Heq as <- _. inversion Hb; congruence.
    + rewrite IH. split.
      * intros (before & after & -> & Hb & Hfile).
        exists (f :: before), after. repeat split; [|done]. by constructor.
      * intros ([|f' before] & after & Heq & Hb & Hfile).
        -- injection Heq as <- _. congruence.
        -- injection Heq as <- ->. inversion Hb; subst. eauto.
Qed.

Lemma firstExisting_None (files : list string) :
  firstExisting exists_ files = None ↔ Forall (λ f, exists_ f = false) files.
Proof.
  induction files as [|f files IH]; simpl; [by split|].
  destruct (exists_ f) eqn:Hf.
  - split; [done|]. inversion 1; congruence.
  - rewrite IH. split; [by constructor | by inversion 1].
Qed.

Lemma firstExisting_app (files1 files2 : list string) :
  firstExisting exists_ (files1 ++ files2)
  = match firstExisting exists_ files1 with
    | Some file => Some file
    | None => firstExisting exists_ files2
    end.
Proof.
  induction files1 as [|f files1 IH]; [done|]. simpl.
  by destruct (exists_ f).
Qed.

Lemma searchFile_app (search : string + list string)
    (paths1 paths2 : list string) :
  searchFile env join search (paths1 ++ paths2)
  = searchFile env join search paths1 ++ searchFile env join search paths2.
Proof. unfold searchFile. apply bind_app. Qed.

(** X18: [find] returns the first candidate that exists, in the order of
    [searchFile]: what it returns exists and no candidate before it does;
    it returns nothing exactly when no candidate exists. *)
Theorem find_first_existing (search : string + list string)
    (paths : list string) :
  (∀ file,
     find env join exists_ search paths = Some file
     ↔ ∃ before after,
         searchFile env join search (paths ++ Env.paths env)
         = before ++ file :: after
         ∧ Forall (λ f, exists_ f = false) before
         ∧ exists_ file = true)
  ∧ (find env join exists_ search paths = None
     ↔ Forall (λ f, exists_ f = false)
         (searchFile env join search (paths ++ Env.paths env))).
Proof.
  unfold find. split; [intros file; apply firstExisting_Some|].
  apply firstExisting_None.
Qed.

(** X19: the paths given to [find] are searched before the paths of the
    environment: a candidate under the environment's paths is only returned
    when no candidate under the given paths exists; [which] is [find] in the
    working directory alone. *)
Theorem find_given_paths_first (search : string + list string)
    (paths : list string) (cwd : string) :
  find env join exists_ search paths
  = match firstExisting exists_ (searchFile env join search paths) with
    | Some file => Some file
    | None =>
        firstExisting exists_ (searchFile env join search (Env.paths env))
    end
  ∧ which env join exists_ search cwd
    = match firstExisting exists_ (searchFile env join search [cwd]) with
      | Some file => Some file
      | None =>
          firstExisting exists_ (searchFile env join search (Env.paths env))
      end.
Proof.
  unfold which, find. by rewrite !searchFile_app, !firstExisting_app.
Qed.

(** X20: [searchFile] yields one candidate for each path, extension and
    name, and since the empty extension is always among the extensions
    the bare name under each path is a candidate on every platform. *)
Theorem searchFile_candidates (search : list string) (paths : list string) :
  length (searchFile env join (inr search) paths)
  = (length paths * (length (Env.extensions env) * length search))%nat
  ∧ (∀ file,
       file ∈ searchFile env join (inr search) paths
       ↔ ∃ path extension value,
           path ∈ paths ∧ extension ∈ Env.extensions env ∧ value ∈ search
           ∧ file = join path (value +:+ extension))
  ∧ (∀ path value,
       path ∈ paths → value ∈ search →
       join path value ∈ searchFile env join (inr search) paths)
  ∧ (∀ value,
       searchFile env join (inl value) paths
       = searchFile env join (inr [value]) paths).
Proof.
  assert (Hmem : ∀ file,
       file ∈ searchFile env join (inr search) paths
       ↔ ∃ path extension value,
           path ∈ paths ∧ extension ∈ Env.extensions env ∧ value ∈ search
           ∧ file = join path (value +:+ extension)).
  { intros file. unfold searchFile. rewrite list_elem_of_bind. split.
    - intros (path & (extension & (value & Hf%list_elem_of_singleton & Hv)
                        %list_elem_of_bind & He)%list_elem_of_bind & Hp).
      by exists path, extension, value.
    - intros (path & extension & value & Hp & He & Hv & ->).
      exists path. split; [|done]. apply list_elem_of_bind.
      exists extension. split; [|done]. apply list_elem_of_bind.
      exists value. split; [|done]. by apply list_elem_of_singleton. }
  split; [|split; [done|split; [|done]]].
  - unfold searchFile. apply length_bind_const. intros path.
    apply length_bind_const. intros extension.
    rewrite (length_bind_const _ _ 1%nat); [lia | done].
  - intros path value Hp Hv. apply Hmem. exists path, "", value.
    repeat split; [done| |done|by rewrite app_empty_r].
    unfold Env.extensions. destruct (Env.isWin env); in_list.
Qed.
End Filesystem_find.

Lemma find_first_existing_witness :
  Filesystem.find Examples.linux Examples.joinPath Examples.onDisk
    (inl "phpunit") ["/home/me/vendor/bin"]
  = Some "/home/me/vendor/bin/phpunit"
  ∧ Examples.onDisk "/home/me/vendor/bin/phpunit" = true.
Proof.
  assert (Filesystem.find Examples.linux Examples.joinPath Examples.onDisk
            (inl "phpunit") ["/home/me/vendor/bin"]
          = Some "/home/me/vendor/bin/phpunit") as H by (by vm_compute).
  split; [exact H|].
  destruct (proj1 (proj1 (find_first_existing Examples.linux
                            Examples.joinPath Examples.onDisk
                            (inl "phpunit") ["/home/me/vendor/bin"]) _) H)
    as (before & after & _ & _ & Hexists).
  exact Hexists.
Defined.

Lemma searchFile_candidates_witness :
  "/usr/bin/phpunit"
  ∈ Filesystem.searchFile Examples.linux Examples.joinPath
      (inr ["phpunit"; "phpunit.phar"]) ["/usr/local/bin"; "/usr/bin"].
Proof.
  apply (proj1 (proj2 (proj2 (searchFile_candidates Examples.linux
                                Examples.joinPath
                                ["phpunit"; "phpunit.phar"]
                                ["/usr/local/bin"; "/usr/bin"])))
           "/usr/bin" "phpunit"); in_list.
Defined.

Section Filesystem_findup.
Import Filesystem.
Context (env : Env.t).
Context (join : string → string → string).
Context (exists_ : string → bool).
Context (dirname : string → string).

Lemma parents_more_fuel (fuel fuel' : nat) (current : string)
    (paths : list string) :
  parents dirname fuel current = Some paths → (fuel ≤ fuel')%nat →
  parents dirname fuel' current = Some paths.
Proof.
  revert fuel' current paths. induction fuel as [|fuel IH];
    intros fuel' current paths; [done|].
  intros H Hle. destruct fuel' as [|fuel']; [lia|]. simpl in *.
  case_decide; [done|].
  destruct (parents dirname fuel (dirname current)) as [ps|] eqn:Hps;
    [|done].
  rewrite (IH fuel' _ ps Hps); [done | lia].
Qed.

Lemma parents_iter (fuel : nat) (current : string) (paths : list string) :
  parents dirname fuel current = Some paths →
  (∀ i path, paths !! i = Some path → path = Nat.iter (S i) dirname current)
  ∧ dirname (default current (last paths)) = default current (last paths).
Proof.
  revert current paths. induction fuel as [|fuel IH]; intros current paths;
    [done|].
  simpl. case_decide as Hroot.
  - intros [= <-]. split; [done|]. simpl. congruence.
  - destruct (parents dirname fuel (dirname current)) as [ps|] eqn:Hps;
      [|done].
    intros [= <-]. destruct (IH _ _ Hps) as [Hi Hlast]. split.
    + intros [|i] path; simpl.
      * by intros [= <-].
      * intros Hpath. rewrite (Hi i path Hpath). simpl.
        by rewrite <- !Nat.iter_succ_r.
    + rewrite last_cons. destruct (last ps); simpl in *; done.
Qed.

(** X21: when the walk of [findup] from the working directory reaches a path
    that is its own parent, [findup] searches the working directory, then
    its ancestors from the nearest to the farthest, then the paths of the
    environment, and returns the first candidate that exists; the ancestors
    are the iterated parents of the working directory, and the walk stops at
    the first one that is its own parent. *)
Theorem findup_nearest_first (fuel : nat) (search : string + list string)
    (cwd : string) (ancestors : list string) :
  parents dirname fuel cwd = Some ancestors →
  findup env join exists_ dirname fuel search cwd
  = Some (firstExisting exists_
            (searchFile env join search
               (cwd :: cwd :: ancestors ++ Env.paths env)))
  ∧ (∀ fuel', (fuel ≤ fuel')%nat →
       findup env join exists_ dirname fuel' search cwd
       = findup env join exists_ dirname fuel search cwd)
  ∧ (∀ i path, ancestors !! i = Some path →
               path = Nat.iter (S i) dirname cwd)
  ∧ dirname (default cwd (last ancestors)) = default cwd (last ancestors).
Proof.
  intros Hp. split; [|split].
  - unfold findup. rewrite Hp. done.
  - intros fuel' Hle. unfold findup.
    by rewrite Hp, (parents_more_fuel _ _ _ _ Hp Hle).
  - by apply (parents_iter fuel).
Qed.
End Filesystem_findup.

Lemma findup_nearest_first_witness :
  Filesystem.findup Examples.linux Examples.joinPath Examples.onDisk
    Examples.parentOf 8 (inl "vendor/bin/phpunit") "/home/me/src/app"
  = Some (Some "/home/me/vendor/bin/phpunit").
Proof.
  destruct (findup_nearest_first Examples.linux Examples.joinPath
              Examples.onDisk Examples.parentOf 8 (inl "vendor/bin/phpunit")
              "/home/me/src/app" ["/home/me/src"; "/home/me"; "/home"; "/"])
    as [H _]; [by vm_compute|].
  rewrite H. by vm_compute.
Defined.

(** *** Ranges *)

Lemma trimStart_decomp (s : string) :
  ∃ w, s = w +:+ Js.trimStart s
       ∧ allWhiteSpace w = true
       ∧ String.length w = Filesystem.searchNonSpace s.
Proof.
  induction s as [|c s (w & Hs & Hw & Hlen)]; [by exists ""|]. simpl.
  destruct (Js.isWhiteSpace c) eqn:Hc.
  - exists (String c w). rewrite app_String, <- Hs. simpl.
    by rewrite Hc, Hw, Hlen.
  - by exists "".
Qed.

Lemma allWhiteSpace_app (s t : string) :
  allWhiteSpace (s +:+ t) = allWhiteSpace s && allWhiteSpace t.
Proof.
  induction s as [|c s IH]; [done|]. rewrite app_String. simpl.
  by rewrite IH, andb_assoc.
Qed.

Lemma allWhiteSpace_rev (s : string) :
  allWhiteSpace (String.rev s) = allWhiteSpace s.
Proof.
  induction s as [|c s IH]; [done|].
  rewrite rev_String, allWhiteSpace_app, IH. simpl.
  by rewrite andb_true_r, andb_comm.
Qed.

Lemma trimStart_allWhiteSpace (s : string) :
  Js.trimStart s = "" ↔ allWhiteSpace s = true.
Proof.
  induction s as [|c s IH]; [done|]. simpl.
  destruct (Js.isWhiteSpace c); [done|]. by split.
Qed.

Lemma trimStart_app (a b : string) :
  Js.trimStart a ≠ "" → Js.trimStart (a +:+ b) = Js.trimStart a +:+ b.
Proof.
  induction a as [|c a IH]; [done|]. rewrite app_String. simpl.
  destruct (Js.isWhiteSpace c); [done|]. by rewrite app_String.
Qed.

Lemma trimEnd_decomp (s : string) :
  ∃ w, s = Js.trimEnd s +:+ w ∧ allWhiteSpace w = true.
Proof.
  destruct (trimStart_decomp (String.rev s)) as (w & Hs & Hw & _).
  exists (String.rev w). split; [|by rewrite allWhiteSpace_rev].
  unfold Js.trimEnd. rewrite <- rev_app_distr_s, <- Hs.
  by rewrite rev_involutive_s.
Qed.

Lemma trimEnd_empty (s : string) :
  Js.trimEnd s = "" ↔ allWhiteSpace s = true.
Proof.
  unfold Js.trimEnd. rewrite <- allWhiteSpace_rev, <- trimStart_allWhiteSpace.
  split; [|by intros ->].
  intros H. apply (f_equal String.rev) in H.
  by rewrite rev_involutive_s in H.
Qed.

(** The end-trimmed text is the leading white space and the trimmed text,
    unless the text is blank. *)
Lemma trimEnd_trim (s : string) :
  Js.trim s ≠ "" →
  ∃ w, Js.trimEnd s = w +:+ Js.trim s
       ∧ allWhiteSpace w = true
       ∧ String.length w = Filesystem.searchNonSpace s.
Proof.
  intros Hne. destruct (trimStart_decomp s) as (w & Hs & Hw & Hlen).
  exists w. split; [|done]. unfold Js.trim in *.
  rewrite Hs at 1. unfold Js.trimEnd in *.
  rewrite rev_app_distr_s, trimStart_app.
  - by rewrite rev_app_distr_s, rev_involutive_s.
  - intros H. apply Hne. by rewrite H.
Qed.

Lemma trim_blank (s : string) :
  Js.trim s = "" ↔ allWhiteSpace s = true.
Proof.
  unfold Js.trim. split.
  - intros H. apply trimStart_allWhiteSpace.
    destruct (trimStart_head s) as [->|(c & r & Hs & Hc)]; [done|].
    rewrite Hs in H. destruct (trimEnd_keeps_head c r Hc) as [r' Hr].
    congruence.
  - by intros ->%trimStart_allWhiteSpace.
Qed.

Lemma lineAt_resolved (buffered : nat) (lines : list string)
    (lineNumber : Z) (line : string) :
  0 ≤ lineNumber → lines !! Z.to_nat lineNumber = Some line →
  Filesystem.lineAt buffered lines lineNumber = Filesystem.Resolved line.
Proof.
  intros Hle Hline. unfold Filesystem.lineAt.
  destruct (emit_pending lineNumber buffered lines Filesystem.init)
    as [H _]; [done..|].
  apply H; [done|]. simpl. by rewrite Z.sub_0_r.
Qed.

Lemma lineAt_rejected (buffered : nat) (lines : list string)
    (lineNumber : Z) :
  lineNumber < 0 ∨ Z.of_nat (length lines) ≤ lineNumber →
  Filesystem.lineAt buffered lines lineNumber = Filesystem.RejectedWith "".
Proof.
  intros Hout. unfold Filesystem.lineAt.
  destruct (emit_pending lineNumber buffered lines Filesystem.init)
    as [_ H]; [done..|].
  apply H. simpl. lia.
Qed.

(** X22: for a line that is not blank, [lineRange] resolves with the range
    of the trimmed text on that line: the start character is the number of
    leading white-space code units and the end character is the start plus
    the length of the trimmed text. *)
Theorem lineRange_trimmed_text (buffered : nat) (lines : list string)
    (lineNumber : Z) (line : string) :
  0 ≤ lineNumber → lines !! Z.to_nat lineNumber = Some line →
  Js.trim line ≠ "" →
  ∃ before after,
    line = before +:+ Js.trim line +:+ after
    ∧ allWhiteSpace before = true ∧ allWhiteSpace after = true
    ∧ Filesystem.lineRange buffered lines lineNumber
      = Filesystem.Resolved
          (Filesystem.Range.create
             (Filesystem.Position.create lineNumber (String.length before))
             (Filesystem.Position.create lineNumber
                (String.length before + String.length (Js.trim line)))).
Proof.
  intros Hle Hline Hne. unfold Filesystem.lineRange.
  rewrite (lineAt_resolved _ _ _ _ Hle Hline).
  destruct (trimEnd_trim line Hne) as (before & Hend & Hbefore & Hlen).
  destruct (trimEnd_decomp line) as (after & Hl & Hafter).
  exists before, after. split; [|split; [done|split; [done|]]].
  - rewrite Hl at 1. by rewrite Hend, app_assoc_s.
  - by rewrite Hend, length_app_s, Hlen.
Qed.

Lemma lineRange_trimmed_text_witness :
  Filesystem.lineRange 0 ["<?php"; "    public function testA()  "] 1
  = Filesystem.Resolved
      (Filesystem.Range.create (Filesystem.Position.create 1 4)
         (Filesystem.Position.create 1 27)).
Proof.
  destruct (lineRange_trimmed_text 0
              ["<?php"; "    public function testA()  "] 1
              "    public function testA()  ")
    as (before & after & _ & _ & _ & H); [lia | reflexivity | by vm_compute |].
  rewrite H. by vm_compute.
Defined.

(** X23: for a blank line (white space only, or empty) [lineRange] resolves
    with a start character equal to the length of the line and an end
    character of 0. *)
Theorem lineRange_blank_line (buffered : nat) (lines : list string)
    (lineNumber : Z) (line : string) :
  0 ≤ lineNumber → lines !! Z.to_nat lineNumber = Some line →
  allWhiteSpace line = true →
  Filesystem.lineRange buffered lines lineNumber
  = Filesystem.Resolved
      (Filesystem.Range.create
         (Filesystem.Position.create lineNumber (String.length line))
         (Filesystem.Position.create lineNumber 0)).
Proof.
  intros Hle Hline Hblank. unfold Filesystem.lineRange.
  rewrite (lineAt_resolved _ _ _ _ Hle Hline).
  rewrite (proj2 (trimEnd_empty line) Hblank).
  destruct (trimStart_decomp line) as (w & Hs & _ & Hlen).
  rewrite (proj2 (trimStart_allWhiteSpace line) Hblank), app_empty_r in Hs.
  by rewrite <- Hlen, <- Hs.
Qed.

Lemma lineRange_blank_line_witness :
  Filesystem.lineRange 0 ["<?php"; "   "] 1
  = Filesystem.Resolved
      (Filesystem.Range.create (Filesystem.Position.create 1 3)
         (Filesystem.Position.create 1 0)).
Proof.
  apply (lineRange_blank_line 0 ["<?php"; "   "] 1 "   ");
    [lia | reflexivity | reflexivity].
Defined.

(** X24: [lineRange] rejects, with the empty reason of [lineAt], exactly
    when the file has no line at the index; otherwise it resolves with a
    range whose two positions are on that line. *)
Theorem lineRange_rejects_out_of_range (buffered : nat)
    (lines : list string) (lineNumber : Z) :
  (lineNumber < 0 ∨ Z.of_nat (length lines) ≤ lineNumber
   ↔ Filesystem.lineRange buffered lines lineNumber
     = Filesystem.RejectedWith "")
  ∧ (0 ≤ lineNumber < Z.of_nat (length lines)
     ↔ ∃ range,
         Filesystem.lineRange buffered lines lineNumber
         = Filesystem.Resolved range
         ∧ Filesystem.Position.line (Filesystem.Range.start range)
           = lineNumber
         ∧ Filesystem.Position.line (Filesystem.Range.end_ range)
           = lineNumber).
Proof.
  destruct (decide (0 ≤ lineNumber < Z.of_nat (length lines))) as [Hin|Hout].
  - destruct (lookup_lt_is_Some_2 lines (Z.to_nat lineNumber)) as [line Hl];
      [lia|].
    unfold Filesystem.lineRange.
    rewrite (lineAt_resolved _ _ _ _ (proj1 Hin) Hl). split.
    + split; [lia | done].
    + split; [|done]. intros _. by eexists.
  - unfold Filesystem.lineRange. rewrite lineAt_rejected by lia. split.
    + split; [done | lia].
    + split; [lia | by intros (? & [=] & _)].
Qed.

Lemma lineRange_rejects_out_of_range_witness :
  Filesystem.lineRange 0 ["<?php"; "class T"] 2 = Filesystem.RejectedWith "".
Proof.
  apply (proj1 (proj1 (lineRange_rejects_out_of_range 0
                         ["<?php"; "class T"] 2))).
  right. simpl. lia.
Defined.

(** *** Paths on Windows *)

Lemma wordChar_lower (c : ascii) :
  Filesystem.isWordChar c = true →
  c ≠ "\"%char ∧ Js.toLowerChar c ≠ "\"%char
  ∧ Filesystem.isWordChar (Js.toLowerChar c) = true.
Proof.
  destruct c as [[] [] [] [] [] [] [] []]; intros H; try discriminate H;
    by vm_compute.
Qed.

(** X25: the text that [asUri] parses on Windows holds no backslash, and a
    path that starts with a drive letter and a colon becomes a slash, the
    lower-cased letter, [%3A] and the rest of the path with its backslashes
    turned into slashes. *)
Theorem windowsUri_drive_letter (uri : string) :
  noneIs (λ c, bool_decide (c = "\"%char)) (Filesystem.windowsUri uri) = true
  ∧ (∀ c rest,
       Filesystem.isWordChar c = true →
       uri = String c (String ":" rest) →
       Filesystem.windowsUri uri
       = String "/" (String (Js.toLowerChar c)
                       ("%3A" +:+ Js.replaceChar "\" "/" rest))).
Proof.
  split.
  - unfold Filesystem.windowsUri.
    pose proof (replaceChar_none "\" "/" uri) as Hnone.
    destruct (Js.replaceChar "\" "/" uri) as [|c [|d r]];
      [by apply Hnone..|].
    specialize (Hnone ltac:(done)).
    destruct (decide (d = ":"%char)) as [->|Hd].
    + destruct (Filesystem.isWordChar c) eqn:Hc; [|done].
      destruct (wordChar_lower c Hc) as (_ & Hl & _).
      simpl in Hnone. apply andb_prop in Hnone as [_ Hr].
      simpl. rewrite bool_decide_eq_false_2 by done. simpl.
      change ("%3A" +:+ r) with (String "%" (String "3" (String "A" r))).
      by simpl.
    + assert (match d with ":"%char => false | _ => true end = true) as Hd'
        by (by destruct d as [[] [] [] [] [] [] [] []]).
      by destruct d as [[] [] [] [] [] [] [] []].
  - intros c rest Hc ->. unfold Filesystem.windowsUri. simpl.
    destruct (wordChar_lower c Hc) as (Hb & _ & _).
    rewrite decide_False by done. by rewrite Hc.
Qed.

Lemma windowsUri_drive_letter_witness :
  Filesystem.windowsUri "C:\Users\me\tests\T.php"
  = "/c%3A/Users/me/tests/T.php".
Proof.
  rewrite (proj2 (windowsUri_drive_letter "C:\Users\me\tests\T.php")
             "C"%char "\Users\me\tests\T.php"); reflexivity.
Defined.

Lemma isWindows_ignores_case_witness :
  Env.isWindows "MINGW64_NT-10.0" = true ∧ Env.isWindows "darwin" = false.
Proof.
  split.
  - apply (proj1 (isWindows_ignores_case "MINGW64_NT-10.0")).
    right. right. left. by exists "", "MINGW", "64_NT-10.0".
  - rewrite <- (proj2 (isWindows_ignores_case "darwin")). reflexivity.
Defined.

Lemma parseTestCase_failed_witness :
  failed
    (JUnitParser.parseTestCase
       {| JUnitParser.attrs := None;
          JUnitParser.error := None;
          JUnitParser.warning := None;
          JUnitParser.failure := None;
          JUnitParser.skipped := None;
          JUnitParser.incomplete := None |}).
Proof.
  apply (proj1 (parseTestCase_failed _)). by left.
Defined.
